(** * Slotted ALOHA simulator: the simulation engine of
    [pages/Slotted_Aloha.py] and its export, embedded and verified.

    Conventions of the embedding.
    - Python integers are [Z].
    - A finite float is a rational number, so the transmission probability
      [p] and the uniform draws are [Q]; the comparison [draw < p] is then
      exact and executable.
    - The float-valued statistics (throughput, offered load, 1/e,
      efficiency) and the theoretical curve are read in exact real
      arithmetic [R]: rounding of binary64 is not modelled.
    - numpy's global generator is an explicit state threaded through every
      call; a call either returns or raises. *)

From Stdlib Require Import String Ascii ZArith QArith Qreals Reals List Bool.
From Stdlib Require Import Lia Lra.
From Stdlib Require Import DecimalString DecimalPos DecimalZ.
Import ListNotations.

Local Open Scope Z_scope.

(** ** Outcome of a Python call *)

Inductive exn : Type :=
| ZeroDivisionError
| ValueError.

Inductive outcome (A : Type) : Type :=
| Returns (a : A)
| Raises (e : exn).

Arguments Returns {A} a.
Arguments Raises {A} e.

(** ** The global generator [np.random]

    The generator is a deterministic stream of uniform samples together
    with the number of samples already handed out.  It lives outside the
    simulator: every call reads it and leaves it advanced. *)

Record RandomState : Type := mkRandomState {
  draws : nat -> Q;
  pos : nat
}.

(** [np.random.random] yields samples of the half-open interval [0, 1). *)
Definition unit_interval (g : RandomState) : Prop :=
  forall i : nat, (0 <= draws g i /\ draws g i < 1)%Q.

(** ** Computations over the global generator that may raise *)

Definition Py (A : Type) : Type := RandomState -> outcome A * RandomState.

Definition ret {A : Type} (a : A) : Py A := fun g => (Returns a, g).

Definition raise {A : Type} (e : exn) : Py A := fun g => (Raises e, g).

Definition bind {A B : Type} (m : Py A) (k : A -> Py B) : Py B :=
  fun g =>
    match m g with
    | (Returns a, g') => k a g'
    | (Raises e, g') => (Raises e, g')
    end.

Notation "x <- m ;; k" := (bind m (fun x => k))
  (at level 61, m at next level, right associativity).

(** [for x in xs: s = body(x, s)] *)
Fixpoint for_each {S : Type} (xs : list Z) (body : Z -> S -> Py S) (s : S)
  : Py S :=
  match xs with
  | [] => ret s
  | x :: xs' => s' <- body x s ;; for_each xs' body s'
  end.

(** [range(n)]: 0, 1, ..., n-1, empty when [n <= 0]. *)
Definition range (n : Z) : list Z := map Z.of_nat (seq 0 (Z.to_nat n)).

(** ** numpy primitives used by the simulator *)

(** [np.random.random(n)]: the next [n] samples; a negative size is
    refused by numpy with a [ValueError]. *)
Definition np_random_random (n : Z) : Py (list Q) :=
  fun g =>
    if n <? 0 then (Raises ValueError, g)
    else (Returns (map (fun i => draws g (pos g + i)%nat) (seq 0 (Z.to_nat n))),
          mkRandomState (draws g) (pos g + Z.to_nat n)).

(** [a < p] on an array: elementwise comparison. *)
Definition np_less (a : list Q) (p : Q) : list bool :=
  map (fun x => if Qlt_le_dec x p then true else false) a.

(** [np.sum] of a boolean array: the number of [True]. *)
Fixpoint np_sum (a : list bool) : Z :=
  match a with
  | [] => 0
  | b :: a' => (if b then 1 else 0) + np_sum a'
  end.

(** Python's [/] on integers. *)
Definition truediv (a b : Z) : Py R :=
  if b =? 0 then raise ZeroDivisionError else ret (IZR a / IZR b)%R.

(** ** [simulate_slotted_aloha] *)

Definition slot_record : Type := (Z * Z * string)%type.

Definition slot_of (e : slot_record) : Z := fst (fst e).
Definition transmissions_of (e : slot_record) : Z := snd (fst e).
Definition status_of (e : slot_record) : string := snd e.

(** The variables assigned in the loop. *)
Record locals : Type := mkLocals {
  slots_data : list slot_record;
  successful_transmissions : Z;
  collisions : Z;
  idle_slots : Z
}.

Module Stats.

(** The dictionary [statistics], whose keys are fixed. *)
Record t : Type := mk {
  successful : Z;
  collisions : Z;
  idle : Z;
  throughput : R;
  theoretical_max : R;
  offered_load : R;
  efficiency : R
}.

End Stats.

Definition np_e : R := exp 1.

(** Body of [for slot in range(num_slots)]. *)
Definition slot_body (num_nodes : Z) (p : Q) (slot : Z) (l : locals)
  : Py locals :=
  samples <- np_random_random num_nodes ;;
  let transmitting_nodes := np_less samples p in
  let num_transmissions := np_sum transmitting_nodes in
  if num_transmissions =? 0 then
    ret (mkLocals (slots_data l ++ [(slot, num_transmissions, "Idle"%string)])
                  (successful_transmissions l)
                  (collisions l)
                  (idle_slots l + 1))
  else if num_transmissions =? 1 then
    ret (mkLocals (slots_data l ++ [(slot, num_transmissions, "Success"%string)])
                  (successful_transmissions l + 1)
                  (collisions l)
                  (idle_slots l))
  else
    ret (mkLocals (slots_data l ++ [(slot, num_transmissions, "Collision"%string)])
                  (successful_transmissions l)
                  (collisions l + 1)
                  (idle_slots l)).

Definition initial_locals : locals := mkLocals [] 0 0 0.

(** The loop of the simulator, from the initial assignments. *)
Definition slot_loop (num_nodes : Z) (p : Q) (num_slots : Z) : Py locals :=
  for_each (range num_slots) (slot_body num_nodes p) initial_locals.

Definition simulate_slotted_aloha (num_nodes : Z) (p : Q) (num_slots : Z)
  : Py (list slot_record * Stats.t) :=
  l <- slot_loop num_nodes p num_slots ;;
  throughput <- truediv (successful_transmissions l) num_slots ;;
  let theoretical_max := (1 / np_e)%R in
  let offered_load := (IZR num_nodes * Q2R p)%R in
  let statistics :=
    Stats.mk (successful_transmissions l) (collisions l) (idle_slots l)
             throughput theoretical_max offered_load
             ((throughput / theoretical_max) * 100)%R in
  ret (slots_data l, statistics).

(** ** [get_theoretical_throughput] *)

Definition np_neg (a : list R) : list R := map Ropp a.
Definition np_exp (a : list R) : list R := map exp a.

(** Product of two arrays of the same shape. *)
Fixpoint np_mul (a b : list R) : list R :=
  match a, b with
  | x :: a', y :: b' => (x * y)%R :: np_mul a' b'
  | _, _ => []
  end.

Definition get_theoretical_throughput (G_values : list R) : outcome (list R) :=
  Returns (np_mul G_values (np_exp (np_neg G_values))).

(** ** The slot-by-slot description of a run

    What the loop computes, written without the loop: slot [i] of a run
    that starts with the generator [g] consumes the samples at positions
    [pos g + i * num_nodes .. pos g + (i + 1) * num_nodes - 1]. *)

Definition advance (g : RandomState) (m : nat) : RandomState :=
  mkRandomState (draws g) (pos g + m).

Definition samples_at (g : RandomState) (n i : nat) : list Q :=
  map (fun j => draws g (pos g + i * n + j)%nat) (seq 0 n).

Definition transmissions_at (num_nodes : Z) (p : Q) (g : RandomState) (i : nat)
  : Z :=
  np_sum (np_less (samples_at g (Z.to_nat num_nodes) i) p).

Definition status_rule (k : Z) : string :=
  if k =? 0 then "Idle" else if k =? 1 then "Success" else "Collision".

Definition outcome_at (num_nodes : Z) (p : Q) (g : RandomState) (i : nat)
  : slot_record :=
  (Z.of_nat i, transmissions_at num_nodes p g i,
   status_rule (transmissions_at num_nodes p g i)).

Definition count_status (s : string) (trace : list slot_record) : Z :=
  Z.of_nat (length (filter (fun e => String.eqb (status_of e) s) trace)).

(** The statuses the simulator writes. *)
Definition is_status (s : string) : Prop :=
  s = "Idle"%string \/ s = "Success"%string \/ s = "Collision"%string.

(** Two generators that hand out the same next [m] samples. *)
Definition same_draws (m : nat) (g1 g2 : RandomState) : Prop :=
  forall i : nat, (i < m)%nat ->
    (draws g1 (pos g1 + i)%nat == draws g2 (pos g2 + i)%nat)%Q.

(** Two calls one after the other in the same process: the second starts
    with the generator the first one left. *)
Definition call_twice {A : Type} (m : Py A) (g : RandomState)
  : outcome A * outcome A :=
  let r1 := m g in
  let r2 := m (snd r1) in
  (fst r1, fst r2).

Definition expected_trace (num_nodes : Z) (p : Q) (num_slots : Z)
  (g : RandomState) : list slot_record :=
  map (outcome_at num_nodes p g) (seq 0 (Z.to_nat num_slots)).

(** The locals after the outcomes [tr] have been recorded on top of [l]. *)
Definition recorded (l : locals) (tr : list slot_record) : locals :=
  mkLocals (slots_data l ++ tr)
           (successful_transmissions l + count_status "Success" tr)
           (collisions l + count_status "Collision" tr)
           (idle_slots l + count_status "Idle" tr).

Definition expected_statistics (num_nodes : Z) (p : Q) (num_slots : Z)
  (tr : list slot_record) : Stats.t :=
  let throughput := (IZR (count_status "Success" tr) / IZR num_slots)%R in
  Stats.mk (count_status "Success" tr) (count_status "Collision" tr)
           (count_status "Idle" tr)
           throughput (1 / np_e)%R (IZR num_nodes * Q2R p)%R
           ((throughput / (1 / np_e)) * 100)%R.

(** The trace a call returned, if it returned. *)
Definition returned_trace (r : outcome (list slot_record * Stats.t) * RandomState)
  : option (list slot_record) :=
  match fst r with
  | Returns (tr, _) => Some tr
  | Raises _ => None
  end.

(** A sample generator: 1/4, 3/4, 1/4, 3/4, ... *)
Definition alternating : RandomState :=
  mkRandomState (fun i => if Nat.even i then 1 # 4 else 3 # 4) 0.

(** The same stream, one sample further. *)
Definition alternating_shifted : RandomState :=
  mkRandomState (fun i => if Nat.even i then 3 # 4 else 1 # 4) 5.

(** ** The closed form of the curve and the partial sums of 1/e *)

(** S(G) = G e^(-G), as the docstring of [get_theoretical_throughput]
    writes it. *)
Definition S_of_G (G : R) : R := (G * exp (- G))%R.

(** k! as an integer. *)
Fixpoint factZ (k : nat) : Z :=
  match k with
  | O => 1
  | S k' => Z.of_nat k * factZ k'
  end.

(** Numerator of 1/0! - 1/1! + 1/2! - ... +- 1/k! over the denominator k!. *)
Fixpoint alt_numerator (k : nat) : Z :=
  match k with
  | O => 1
  | S k' => Z.of_nat k * alt_numerator k' + (if Nat.even k then 1 else -1)
  end.

Definition inv_fact (i : nat) : R := (/ INR (fact i))%R.

(** ** The export: [pd.DataFrame(slots_data, columns=[...]).to_csv(index=False)]

    A frame is its column names and its rows of cells.  [to_csv] without
    the index writes the column names, then one line per row, the cells
    separated by commas and every line ended by a line feed.  Integers are
    written in decimal.  pandas puts a cell between quotes only when it
    contains a comma, a quote or a line break; the statuses contain none,
    so the cells are written as they are. *)

Inductive cell : Type :=
| IntCell (z : Z)
| StrCell (s : string).

Record DataFrame : Type := mkDataFrame {
  columns : list string;
  rows : list (list cell)
}.

Definition line_feed : ascii := ascii_of_nat 10.

Definition comma : ascii := ascii_of_nat 44.

(** [str(z)] for an integer. *)
Definition str (z : Z) : string := NilZero.string_of_int (Z.to_int z).

Definition pd_DataFrame (data : list slot_record) (cols : list string)
  : DataFrame :=
  mkDataFrame cols
    (map (fun e => [IntCell (slot_of e); IntCell (transmissions_of e);
                    StrCell (status_of e)]) data).

Definition write_cell (c : cell) : string :=
  match c with
  | IntCell z => str z
  | StrCell s => s
  end.

Fixpoint join_comma (fields : list string) : string :=
  match fields with
  | [] => EmptyString
  | [f] => f
  | f :: fs => (f ++ String comma (join_comma fs))%string
  end.

Fixpoint write_lines (lines : list string) : string :=
  match lines with
  | [] => EmptyString
  | l :: ls => (l ++ String line_feed (write_lines ls))%string
  end.

Definition to_csv (df : DataFrame) : string :=
  write_lines (join_comma (columns df)
               :: map (fun r => join_comma (map write_cell r)) (rows df)).

(** Lines 254-255 of the page. *)
Definition export_csv (slots_data : list slot_record) : string :=
  to_csv (pd_DataFrame slots_data
            ["Slot"%string; "Transmissions"%string; "Status"%string]).

(** The line of one outcome. *)
Definition csv_row (e : slot_record) : string :=
  (str (slot_of e) ++ String comma
     (str (transmissions_of e) ++ String comma (status_of e)))%string.

(** Modelled from the spec: the page never reads an export back, so the
    re-parsing of the round trip is written here from the format the spec
    describes: a header line [Slot,Transmissions,Status], then one line
    per outcome with two decimal integers and one of the three statuses,
    every line ended by a line feed. *)
Fixpoint split_on (c : ascii) (s : string) : list string :=
  match s with
  | EmptyString => [EmptyString]
  | String a s' =>
      if Ascii.eqb a c then EmptyString :: split_on c s'
      else match split_on c s' with
           | [] => [String a EmptyString]
           | f :: fs => String a f :: fs
           end
  end.

Definition parse_int (s : string) : option Z :=
  option_map Z.of_int (NilZero.int_of_string s).

Definition is_status_b (s : string) : bool :=
  String.eqb s "Idle" || String.eqb s "Success" || String.eqb s "Collision".

Definition parse_row (line : string) : option slot_record :=
  match split_on comma line with
  | [a; b; c] =>
      match parse_int a, parse_int b with
      | Some slot, Some n => if is_status_b c then Some (slot, n, c) else None
      | _, _ => None
      end
  | _ => None
  end.

Fixpoint parse_rows (lines : list string) : option (list slot_record) :=
  match lines with
  | [] => None
  | [l] => if String.eqb l EmptyString then Some [] else None
  | l :: ls =>
      match parse_row l, parse_rows ls with
      | Some e, Some es => Some (e :: es)
      | _, _ => None
      end
  end.

Definition read_csv (text : string) : option (list slot_record) :=
  match split_on line_feed text with
  | header :: lines =>
      if String.eqb header "Slot,Transmissions,Status" then parse_rows lines
      else None
  | [] => None
  end.

(** A string in which the character [c] does not occur. *)
Fixpoint free_of (c : ascii) (s : string) : Prop :=
  match s with
  | EmptyString => True
  | String a s' => a <> c /\ free_of c s'
  end.

(** The two separators of the export; neither is a digit or a sign. *)
Definition separator (c : ascii) : Prop := c = comma \/ c = line_feed.

(** ** The page around the simulator

    The script of the page reads three sliders, calls the simulator with
    their values and derives what it displays from the result. *)

(** The sliders (lines 23-47): their least and greatest values, and the
    step of the number of slots. *)
Definition num_nodes_slider (v : Z) : Prop := 2 <= v <= 50.

Definition transmission_prob_slider (v : Q) : Prop :=
  (1 # 100 <= v)%Q /\ (v <= 1)%Q.

Definition num_slots_slider (v : Z) : Prop :=
  100 <= v <= 5000 /\ (v - 100) mod 100 = 0.

(** [(count / num_slots) * 100], the rates of lines 126-142. *)
Definition percentage (count num_slots : Z) : Py R :=
  q <- truediv count num_slots ;;
  ret (q * 100)%R.

(** The three rates shown next to the throughput, before formatting. *)
Definition rates (stats : Stats.t) (num_slots : Z) : Py (R * R * R) :=
  success_rate <- percentage (Stats.successful stats) num_slots ;;
  collision_rate <- percentage (Stats.collisions stats) num_slots ;;
  idle_rate <- percentage (Stats.idle stats) num_slots ;;
  ret (success_rate, collision_rate, idle_rate).

(** [l[:n]]: the first [n] elements, or all but the last [-n] when [n] is
    negative. *)
Definition slice_to {A : Type} (l : list A) (n : Z) : list A :=
  if 0 <=? n then firstn (Z.to_nat n) l
  else firstn (length l - Z.to_nat (- n)) l.

(** [display_slots = min(100, num_slots)] *)
Definition display_slots (num_slots : Z) : Z := Z.min 100 num_slots.

Definition slot_numbers (slots_data : list slot_record) (num_slots : Z)
  : list Z :=
  map slot_of (slice_to slots_data (display_slots num_slots)).

Definition shown_transmissions (slots_data : list slot_record) (num_slots : Z)
  : list Z :=
  map transmissions_of (slice_to slots_data (display_slots num_slots)).

Definition statuses (slots_data : list slot_record) (num_slots : Z)
  : list string :=
  map status_of (slice_to slots_data (display_slots num_slots)).

(** [colors_map], a dictionary from status to colour. *)
Definition colors_map : list (string * string) :=
  [("Idle"%string, "#95a5a6"%string);
   ("Success"%string, "#2ecc71"%string);
   ("Collision"%string, "#e74c3c"%string)].

(** [d[k]]; [None] stands for the KeyError of a missing key. *)
Fixpoint dict_getitem (d : list (string * string)) (k : string)
  : option string :=
  match d with
  | [] => None
  | (k', v) :: d' => if String.eqb k' k then Some v else dict_getitem d' k
  end.

(** [[colors_map[status] for status in statuses]]: the first missing key
    ends the comprehension. *)
Fixpoint bar_colors (sts : list string) : option (list string) :=
  match sts with
  | [] => Some []
  | s :: sts' =>
      match dict_getitem colors_map s with
      | None => None
      | Some c =>
          match bar_colors sts' with
          | None => None
          | Some cs => Some (c :: cs)
          end
      end
  end.

(** [np.linspace(start, stop, num)]: [num] evenly spaced samples, both
    ends included. *)
Definition np_linspace (start stop : R) (num : nat) : list R :=
  match num with
  | O => []
  | S O => [start]
  | S div =>
      map (fun i => (INR i * ((stop - start) / INR div) + start)%R)
          (seq 0 num)
  end.

(** Lines 154-155: the loads of the plotted curve. *)
Definition G_range : list R := np_linspace 0 5 100.

Definition S_theoretical : outcome (list R) :=
  get_theoretical_throughput G_range.

(** Lines 163-164: the point marked as the maximum. *)
Definition max_G : R := 1%R.
Definition max_S : R := (1 / np_e)%R.

(** Lines 173-174: the limits of the two axes. *)
Definition xlim : R * R := (0%R, 5%R).
Definition ylim : R * R := (0%R, (4 / 10)%R).

(** The number of occurrences of a character in a text. *)
Fixpoint count_char (c : ascii) (s : string) : nat :=
  match s with
  | EmptyString => O
  | String a s' => ((if Ascii.eqb a c then 1 else 0) + count_char c s')%nat
  end.

(** An outcome whose slot number is moved by [k]. *)
Definition shift_slot (k : Z) (e : slot_record) : slot_record :=
  (slot_of e + k, transmissions_of e, status_of e).

(** The colour of a bar, read off the number of transmitters. *)
Definition color_of_count (k : Z) : string :=
  if k =? 0 then "#95a5a6" else if k =? 1 then "#2ecc71" else "#e74c3c".

(** ** Basic facts *)

Section Monad_facts.

Context {A B : Type}.

Lemma bind_returns (m : Py A) (k : A -> Py B) g a g' :
  m g = (Returns a, g') -> bind m k g = k a g'.
Proof. intros H. unfold bind. now rewrite H. Qed.

Lemma bind_raises (m : Py A) (k : A -> Py B) g e g' :
  m g = (Raises e, g') -> bind m k g = (Raises e, g').
Proof. intros H. unfold bind. now rewrite H. Qed.

End Monad_facts.

Lemma range_length n : length (range n) = Z.to_nat n.
Proof. unfold range. now rewrite length_map, length_seq. Qed.

Lemma range_nonpos n : n <= 0 -> range n = [].
Proof.
  intros H. unfold range. replace (Z.to_nat n) with 0%nat by lia. reflexivity.
Qed.

Lemma np_sum_bounds a : 0 <= np_sum a <= Z.of_nat (length a).
Proof.
  induction a as [|b a IH]; simpl length; simpl np_sum.
  - lia.
  - destruct b; lia.
Qed.

Lemma np_sum_none a : Forall (fun b => b = false) a -> np_sum a = 0.
Proof.
  induction 1 as [|b a Hb _ IH]; simpl; [reflexivity|].
  rewrite Hb, IH. reflexivity.
Qed.

Lemma np_sum_all a : Forall (fun b => b = true) a -> np_sum a = Z.of_nat (length a).
Proof.
  induction 1 as [|b a Hb _ IH]; simpl np_sum; simpl length; [reflexivity|].
  rewrite Hb, IH. lia.
Qed.

Lemma np_less_length a p : length (np_less a p) = length a.
Proof. unfold np_less. apply length_map. Qed.

Lemma samples_at_length g n i : length (samples_at g n i) = n.
Proof. unfold samples_at. now rewrite length_map, length_seq. Qed.

Lemma transmissions_at_bounds num_nodes p g i :
  0 <= num_nodes -> 0 <= transmissions_at num_nodes p g i <= num_nodes.
Proof.
  intros H. unfold transmissions_at.
  pose proof (np_sum_bounds (np_less (samples_at g (Z.to_nat num_nodes) i) p)) as B.
  rewrite np_less_length, samples_at_length in B. lia.
Qed.

Lemma status_rule_is_status k : is_status (status_rule k).
Proof.
  unfold status_rule, is_status.
  destruct (k =? 0); [now left|]. destruct (k =? 1); [right; now left|now do 2 right].
Qed.

Lemma status_rule_idle k : status_rule k = "Idle"%string <-> k = 0.
Proof.
  unfold status_rule.
  destruct (Z.eqb_spec k 0); [tauto|].
  destruct (Z.eqb_spec k 1); split; intros; (discriminate || lia).
Qed.

Lemma status_rule_success k : status_rule k = "Success"%string <-> k = 1.
Proof.
  unfold status_rule.
  destruct (Z.eqb_spec k 0); [split; intros; (discriminate || lia)|].
  destruct (Z.eqb_spec k 1); [tauto|split; intros; (discriminate || lia)].
Qed.

Lemma status_rule_collision k :
  0 <= k -> (status_rule k = "Collision"%string <-> 2 <= k).
Proof.
  intros Hk. unfold status_rule.
  destruct (Z.eqb_spec k 0); [split; intros; (discriminate || lia)|].
  destruct (Z.eqb_spec k 1); [split; intros; (discriminate || lia)|].
  split; intros; (reflexivity || lia).
Qed.

Lemma count_status_app s t1 t2 :
  count_status s (t1 ++ t2) = count_status s t1 + count_status s t2.
Proof.
  unfold count_status. rewrite filter_app, length_app. lia.
Qed.

Lemma count_status_nonneg s t : 0 <= count_status s t.
Proof. unfold count_status. lia. Qed.

Lemma count_status_cons s e t :
  count_status s (e :: t)
  = (if String.eqb (status_of e) s then 1 else 0) + count_status s t.
Proof.
  unfold count_status. simpl filter.
  destruct (String.eqb (status_of e) s); simpl length; lia.
Qed.

(** Every entry carries exactly one of the three statuses, so the three
    counts partition the trace. *)
Lemma count_status_partition t :
  Forall (fun e => is_status (status_of e)) t ->
  count_status "Success" t + count_status "Collision" t
    + count_status "Idle" t = Z.of_nat (length t).
Proof.
  induction 1 as [|e t He _ IH].
  - reflexivity.
  - rewrite !count_status_cons. simpl length. rewrite Nat2Z.inj_succ, <- IH.
    destruct He as [H | [H | H]]; rewrite H; cbn -[Z.add count_status]; lia.
Qed.

(** ** The loop, slot by slot *)

Lemma advance_0 g : advance g 0 = g.
Proof. destruct g as [d q]. unfold advance. simpl. now rewrite Nat.add_0_r. Qed.

Lemma advance_advance g a b : advance (advance g a) b = advance g (a + b).
Proof. unfold advance. simpl. now rewrite Nat.add_assoc. Qed.

Lemma recorded_nil l : recorded l [] = l.
Proof.
  destruct l. unfold recorded, count_status. simpl.
  now rewrite app_nil_r, !Z.add_0_r.
Qed.

Lemma recorded_app l t1 t2 : recorded (recorded l t1) t2 = recorded l (t1 ++ t2).
Proof.
  unfold recorded. simpl. rewrite !count_status_app, app_assoc.
  f_equal; lia.
Qed.

Lemma np_random_random_negative n g :
  n < 0 -> np_random_random n g = (Raises ValueError, g).
Proof.
  intros H. unfold np_random_random.
  destruct (Z.ltb_spec n 0); [reflexivity | lia].
Qed.

Lemma np_random_random_at n g i :
  0 <= n ->
  np_random_random n (advance g (i * Z.to_nat n))
  = (Returns (samples_at g (Z.to_nat n) i), advance g (S i * Z.to_nat n)).
Proof.
  intros H. unfold np_random_random.
  destruct (Z.ltb_spec n 0); [lia|].
  unfold samples_at, advance. simpl draws. simpl pos.
  do 2 f_equal. simpl. lia.
Qed.

Lemma slot_body_at num_nodes p slot l g i :
  0 <= num_nodes ->
  slot_body num_nodes p slot l (advance g (i * Z.to_nat num_nodes))
  = (Returns (recorded l [(slot, transmissions_at num_nodes p g i,
                           status_rule (transmissions_at num_nodes p g i))]),
     advance g (S i * Z.to_nat num_nodes)).
Proof.
  intros H. unfold slot_body.
  rewrite (bind_returns _ _ _ _ _ (np_random_random_at num_nodes g i H)).
  fold (transmissions_at num_nodes p g i).
  set (k := transmissions_at num_nodes p g i).
  unfold recorded, status_rule.
  destruct (k =? 0); [|destruct (k =? 1)]; unfold ret;
    rewrite !count_status_cons; cbn -[Z.add];
    do 3 f_equal; lia.
Qed.

Lemma slot_body_negative num_nodes p slot l g :
  num_nodes < 0 -> slot_body num_nodes p slot l g = (Raises ValueError, g).
Proof.
  intros H. unfold slot_body.
  now rewrite (bind_raises _ _ _ _ _ (np_random_random_negative num_nodes g H)).
Qed.

Lemma for_each_slots num_nodes p g :
  0 <= num_nodes ->
  forall (k a : nat) (l : locals),
    for_each (map Z.of_nat (seq a k)) (slot_body num_nodes p) l
             (advance g (a * Z.to_nat num_nodes))
    = (Returns (recorded l (map (outcome_at num_nodes p g) (seq a k))),
       advance g ((a + k) * Z.to_nat num_nodes)).
Proof.
  intros H. induction k as [|k IH]; intros a l.
  - simpl. unfold ret. now rewrite recorded_nil, Nat.add_0_r.
  - simpl seq. simpl map. simpl for_each.
    rewrite (bind_returns _ _ _ _ _ (slot_body_at num_nodes p _ l g a H)).
    rewrite IH, recorded_app. simpl app.
    now replace (S a + k)%nat with (a + S k)%nat by lia.
Qed.

Lemma slot_loop_spec num_nodes p num_slots g :
  0 <= num_nodes ->
  slot_loop num_nodes p num_slots g
  = (Returns (recorded initial_locals (expected_trace num_nodes p num_slots g)),
     advance g (Z.to_nat num_slots * Z.to_nat num_nodes)).
Proof.
  intros H. unfold slot_loop, range, expected_trace.
  pose proof (for_each_slots num_nodes p g H (Z.to_nat num_slots) 0 initial_locals)
    as E.
  simpl Nat.mul in E. rewrite advance_0 in E. exact E.
Qed.

Lemma slot_loop_no_slot num_nodes p num_slots g :
  num_slots <= 0 ->
  slot_loop num_nodes p num_slots g = (Returns initial_locals, g).
Proof.
  intros H. unfold slot_loop. now rewrite range_nonpos.
Qed.

Lemma slot_loop_negative num_nodes p num_slots g :
  num_nodes < 0 -> 1 <= num_slots ->
  slot_loop num_nodes p num_slots g = (Raises ValueError, g).
Proof.
  intros Hn Hs. unfold slot_loop, range.
  destruct (Z.to_nat num_slots) as [|k] eqn:E; [lia|].
  simpl. now rewrite (bind_raises _ _ _ _ _ (slot_body_negative _ _ _ _ _ Hn)).
Qed.

(** The whole call, when it returns. *)
Lemma simulate_spec num_nodes p num_slots g :
  0 <= num_nodes -> num_slots <> 0 ->
  simulate_slotted_aloha num_nodes p num_slots g
  = (Returns (expected_trace num_nodes p num_slots g,
              expected_statistics num_nodes p num_slots
                (expected_trace num_nodes p num_slots g)),
     advance g (Z.to_nat num_slots * Z.to_nat num_nodes)).
Proof.
  intros Hn Hs. unfold simulate_slotted_aloha.
  rewrite (bind_returns _ _ _ _ _ (slot_loop_spec num_nodes p num_slots g Hn)).
  unfold truediv. destruct (Z.eqb_spec num_slots 0); [contradiction|].
  unfold bind, ret, recorded, initial_locals, expected_statistics. simpl.
  reflexivity.
Qed.

Lemma expected_trace_length num_nodes p num_slots g :
  length (expected_trace num_nodes p num_slots g) = Z.to_nat num_slots.
Proof. unfold expected_trace. now rewrite length_map, length_seq. Qed.

Lemma expected_trace_slots num_nodes p num_slots g :
  map slot_of (expected_trace num_nodes p num_slots g) = range num_slots.
Proof.
  unfold expected_trace, range. rewrite map_map. apply map_ext. reflexivity.
Qed.

Lemma expected_trace_In num_nodes p num_slots g e :
  In e (expected_trace num_nodes p num_slots g) ->
  exists i, (i < Z.to_nat num_slots)%nat /\ e = outcome_at num_nodes p g i.
Proof.
  unfold expected_trace. rewrite in_map_iff. intros [i [<- Hi]].
  apply in_seq in Hi. exists i. split; [lia | reflexivity].
Qed.

Lemma expected_trace_statuses num_nodes p num_slots g :
  Forall (fun e => is_status (status_of e))
         (expected_trace num_nodes p num_slots g).
Proof.
  apply Forall_forall. intros e He.
  apply expected_trace_In in He. destruct He as [i [_ ->]].
  apply status_rule_is_status.
Qed.

(** How a call ends, by its arguments. *)
Lemma simulate_zero_slots num_nodes p g :
  simulate_slotted_aloha num_nodes p 0 g = (Raises ZeroDivisionError, g).
Proof.
  unfold simulate_slotted_aloha.
  rewrite (bind_returns _ _ _ _ _
             (slot_loop_no_slot num_nodes p 0 g (Z.le_refl 0))).
  reflexivity.
Qed.

Lemma simulate_negative_nodes num_nodes p num_slots g :
  num_nodes < 0 -> 1 <= num_slots ->
  simulate_slotted_aloha num_nodes p num_slots g = (Raises ValueError, g).
Proof.
  intros Hn Hs. unfold simulate_slotted_aloha.
  now rewrite (bind_raises _ _ _ _ _
                 (slot_loop_negative num_nodes p num_slots g Hn Hs)).
Qed.

Lemma simulate_negative_slots num_nodes p num_slots g :
  num_slots < 0 ->
  simulate_slotted_aloha num_nodes p num_slots g
  = (Returns ([], expected_statistics num_nodes p num_slots []), g).
Proof.
  intros Hs. unfold simulate_slotted_aloha.
  rewrite (bind_returns _ _ _ _ _
             (slot_loop_no_slot num_nodes p num_slots g (Z.lt_le_incl _ _ Hs))).
  unfold truediv. destruct (Z.eqb_spec num_slots 0); [lia|].
  reflexivity.
Qed.

Lemma expected_trace_no_slot num_nodes p num_slots g :
  num_slots <= 0 -> expected_trace num_nodes p num_slots g = [].
Proof.
  intros H. unfold expected_trace.
  replace (Z.to_nat num_slots) with 0%nat by lia. reflexivity.
Qed.

(** Whenever the call returns, it returns the slot-by-slot description. *)
Lemma simulate_returns_inv num_nodes p num_slots g tr st g' :
  simulate_slotted_aloha num_nodes p num_slots g = (Returns (tr, st), g') ->
  tr = expected_trace num_nodes p num_slots g
  /\ st = expected_statistics num_nodes p num_slots tr
  /\ num_slots <> 0
  /\ (0 <= num_nodes \/ num_slots < 0).
Proof.
  intros H.
  destruct (Z.eq_dec num_slots 0) as [->|Hs].
  - rewrite simulate_zero_slots in H. discriminate.
  - destruct (Z_lt_le_dec num_nodes 0) as [Hn|Hn].
    + destruct (Z_lt_le_dec num_slots 0) as [Hneg|Hpos].
      * rewrite (simulate_negative_slots _ _ _ _ Hneg) in H.
        injection H as <- <- _.
        rewrite expected_trace_no_slot by lia. repeat split; auto.
      * rewrite simulate_negative_nodes in H by lia. discriminate.
    + rewrite (simulate_spec _ _ _ _ Hn Hs) in H.
      injection H as <- <- _. repeat split; auto.
Qed.

Lemma alternating_unit_interval : unit_interval alternating.
Proof.
  intros i. simpl. destruct (Nat.even i); split; (discriminate || reflexivity).
Qed.

(** ** Classification of a slot *)

(** C1. In every trace a run returns, the status of each entry is decided
    by its transmitter count alone: Idle exactly when the count is 0,
    Success exactly when it is 1, Collision exactly when it is 2 or more. *)
Theorem status_determined_by_transmitter_count
  num_nodes p num_slots g tr st g' :
  simulate_slotted_aloha num_nodes p num_slots g = (Returns (tr, st), g') ->
  forall e, In e tr ->
    (status_of e = "Idle"%string <-> transmissions_of e = 0)
    /\ (status_of e = "Success"%string <-> transmissions_of e = 1)
    /\ (status_of e = "Collision"%string <-> 2 <= transmissions_of e)
    /\ status_of e = status_rule (transmissions_of e).
Proof.
  intros H e He.
  apply simulate_returns_inv in H. destruct H as [-> [_ [Hs Hn]]].
  destruct (Z_lt_le_dec num_slots 0) as [Hneg|Hpos].
  - rewrite expected_trace_no_slot in He by lia. contradiction.
  - assert (0 <= num_nodes) as Hn' by lia.
    apply expected_trace_In in He. destruct He as [i [_ ->]].
    unfold outcome_at, status_of, transmissions_of. simpl.
    pose proof (transmissions_at_bounds num_nodes p g i Hn') as B.
    split; [apply status_rule_idle|].
    split; [apply status_rule_success|].
    split; [apply status_rule_collision; lia | reflexivity].
Qed.

Lemma status_determined_by_transmitter_count_witness :
  simulate_slotted_aloha 3 (1 # 2) 4 alternating
  = (Returns (expected_trace 3 (1 # 2) 4 alternating,
              expected_statistics 3 (1 # 2) 4
                (expected_trace 3 (1 # 2) 4 alternating)),
     advance alternating 12)
  /\ expected_trace 3 (1 # 2) 4 alternating
     = [(0, 2, "Collision"%string); (1, 1, "Success"%string);
        (2, 2, "Collision"%string); (3, 1, "Success"%string)]
  /\ ("Collision"%string = "Idle"%string <-> 2 = 0)
  /\ ("Collision"%string = "Success"%string <-> 2 = 1)
  /\ ("Collision"%string = "Collision"%string <-> 2 <= 2)
  /\ "Collision"%string = status_rule 2.
Proof.
  split; [reflexivity|].
  split; [vm_compute; reflexivity|].
  apply (status_determined_by_transmitter_count
           3 (1 # 2) 4 alternating
           (expected_trace 3 (1 # 2) 4 alternating)
           (expected_statistics 3 (1 # 2) 4
              (expected_trace 3 (1 # 2) 4 alternating))
           (advance alternating 12)
           eq_refl (2, 2, "Collision"%string)).
  vm_compute. tauto.
Defined.

(** ** Conservation of slots *)

Lemma range_nth n i :
  (i < Z.to_nat n)%nat -> nth i (range n) 0 = Z.of_nat i.
Proof.
  intros H. unfold range.
  change 0 with (Z.of_nat 0). rewrite map_nth, seq_nth by exact H. reflexivity.
Qed.

Lemma count_status_le_length s t : count_status s t <= Z.of_nat (length t).
Proof.
  unfold count_status. apply Nat2Z.inj_le. apply filter_length_le.
Qed.

(** C2. With valid parameters the call returns a trace of exactly
    [num_slots] entries whose slot numbers are 0, 1, ..., num_slots - 1 in
    this order; the three counters add up to [num_slots] and each one is
    the number of entries of the trace with its status. *)
Theorem trace_and_counters_conserve_slots num_nodes p num_slots g :
  1 <= num_nodes -> (0 <= p)%Q -> (p <= 1)%Q -> 1 <= num_slots ->
  exists tr st g',
    simulate_slotted_aloha num_nodes p num_slots g = (Returns (tr, st), g')
    /\ Z.of_nat (length tr) = num_slots
    /\ (forall i, (i < length tr)%nat ->
          slot_of (nth i tr (0, 0, EmptyString)) = Z.of_nat i)
    /\ Stats.successful st + Stats.collisions st + Stats.idle st = num_slots
    /\ Stats.successful st = count_status "Success" tr
    /\ Stats.collisions st = count_status "Collision" tr
    /\ Stats.idle st = count_status "Idle" tr.
Proof.
  intros Hn _ _ Hs.
  exists (expected_trace num_nodes p num_slots g),
         (expected_statistics num_nodes p num_slots
            (expected_trace num_nodes p num_slots g)),
         (advance g (Z.to_nat num_slots * Z.to_nat num_nodes)).
  split; [apply simulate_spec; lia|].
  split; [rewrite expected_trace_length; lia|].
  split.
  - intros i Hi. rewrite expected_trace_length in Hi.
    change (slot_of (nth i (expected_trace num_nodes p num_slots g)
                       (0, 0, EmptyString)))
      with ((fun e => slot_of e)
              (nth i (expected_trace num_nodes p num_slots g)
                 (0, 0, EmptyString))).
    rewrite <- map_nth, expected_trace_slots. apply range_nth. exact Hi.
  - simpl. split; [|repeat split].
    rewrite (count_status_partition _ (expected_trace_statuses _ _ _ _)).
    rewrite expected_trace_length. lia.
Qed.

Lemma trace_and_counters_conserve_slots_witness :
  exists tr st g',
    simulate_slotted_aloha 3 (1 # 2) 4 alternating = (Returns (tr, st), g')
    /\ Z.of_nat (length tr) = 4
    /\ (forall i, (i < length tr)%nat ->
          slot_of (nth i tr (0, 0, EmptyString)) = Z.of_nat i)
    /\ Stats.successful st + Stats.collisions st + Stats.idle st = 4
    /\ Stats.successful st = count_status "Success" tr
    /\ Stats.collisions st = count_status "Collision" tr
    /\ Stats.idle st = count_status "Idle" tr.
Proof.
  apply (trace_and_counters_conserve_slots 3 (1 # 2) 4 alternating).
  - lia.
  - discriminate.
  - discriminate.
  - lia.
Defined.

(** ** The division by the number of slots *)

(** C10. Nothing but the number of slots protects the division that gives
    the throughput: with at least one slot and a node count that is not
    negative the call returns, and with no slot at all the loop leaves an
    empty trace and the division then raises ZeroDivisionError. *)
Theorem throughput_division_guarded_by_slot_count_only :
  (forall num_nodes p num_slots g,
      0 <= num_nodes -> 1 <= num_slots ->
      exists tr st g',
        simulate_slotted_aloha num_nodes p num_slots g = (Returns (tr, st), g'))
  /\ (forall num_nodes p g,
        slot_loop num_nodes p 0 g = (Returns initial_locals, g)
        /\ slots_data initial_locals = []
        /\ simulate_slotted_aloha num_nodes p 0 g
           = (Raises ZeroDivisionError, g)).
Proof.
  split.
  - intros num_nodes p num_slots g Hn Hs.
    do 3 eexists. apply simulate_spec; lia.
  - intros num_nodes p g.
    split; [apply slot_loop_no_slot; lia|].
    split; [reflexivity | apply simulate_zero_slots].
Qed.

Lemma throughput_division_guarded_by_slot_count_only_witness :
  (exists tr st g',
      simulate_slotted_aloha 0 (1 # 2) 1 alternating = (Returns (tr, st), g'))
  /\ simulate_slotted_aloha 2 (1 # 2) 0 alternating
     = (Raises ZeroDivisionError, alternating).
Proof.
  split.
  - apply (proj1 throughput_division_guarded_by_slot_count_only
             0 (1 # 2) 1 alternating); lia.
  - apply (proj2 throughput_division_guarded_by_slot_count_only
             2 (1 # 2) alternating).
Defined.

(** ** Arguments out of range *)

(** C3, counterexample.  The call returns with a node count of 0, with a
    probability of 3/2 and with a negative number of slots: no error is
    reported for any of the three fields. *)
Lemma invalid_parameters_counterexample :
  returned_trace (simulate_slotted_aloha 0 (1 # 2) 2 alternating)
  = Some [(0, 0, "Idle"%string); (1, 0, "Idle"%string)]
  /\ returned_trace (simulate_slotted_aloha 2 (3 # 2) 1 alternating)
     = Some [(0, 2, "Collision"%string)]
  /\ returned_trace (simulate_slotted_aloha 2 (1 # 2) (-1) alternating)
     = Some [].
Proof. repeat split; vm_compute; reflexivity. Qed.

(** C3, amended.  The simulator checks none of its arguments: whenever the
    node count is not negative and the number of slots is not 0 it returns,
    for every [p], a trace of max(num_slots, 0) entries whose transmitter
    counts lie between 0 and [num_nodes], and the statistics are computed
    from the arguments as they were given. *)
Theorem arguments_are_not_validated num_nodes p num_slots g :
  0 <= num_nodes -> num_slots <> 0 ->
  exists tr st g',
    simulate_slotted_aloha num_nodes p num_slots g = (Returns (tr, st), g')
    /\ Z.of_nat (length tr) = Z.max num_slots 0
    /\ Forall (fun e => 0 <= transmissions_of e <= num_nodes) tr
    /\ Stats.offered_load st = (IZR num_nodes * Q2R p)%R
    /\ Stats.throughput st
       = (IZR (count_status "Success" tr) / IZR num_slots)%R.
Proof.
  intros Hn Hs.
  exists (expected_trace num_nodes p num_slots g),
         (expected_statistics num_nodes p num_slots
            (expected_trace num_nodes p num_slots g)),
         (advance g (Z.to_nat num_slots * Z.to_nat num_nodes)).
  split; [apply simulate_spec; assumption|].
  split; [rewrite expected_trace_length; lia|].
  split; [|split; reflexivity].
  apply Forall_forall. intros e He.
  apply expected_trace_In in He. destruct He as [i [_ ->]].
  apply transmissions_at_bounds. exact Hn.
Qed.

Lemma arguments_are_not_validated_witness :
  exists tr st g',
    simulate_slotted_aloha 0 (3 # 2) (-2) alternating = (Returns (tr, st), g')
    /\ Z.of_nat (length tr) = Z.max (-2) 0
    /\ Forall (fun e => 0 <= transmissions_of e <= 0) tr
    /\ Stats.offered_load st = (IZR 0 * Q2R (3 # 2))%R
    /\ Stats.throughput st
       = (IZR (count_status "Success" tr) / IZR (-2))%R.
Proof.
  apply (arguments_are_not_validated 0 (3 # 2) (-2) alternating).
  - lia.
  - lia.
Defined.

(** ** The source of randomness *)

Lemma np_less_same_draws (f1 f2 : nat -> Q) p js :
  (forall j, In j js -> (f1 j == f2 j)%Q) ->
  np_less (map f1 js) p = np_less (map f2 js) p.
Proof.
  intros H. unfold np_less. rewrite !map_map. apply map_ext_in.
  intros j Hj. specialize (H j Hj).
  destruct (Qlt_le_dec (f1 j) p) as [L1|L1], (Qlt_le_dec (f2 j) p) as [L2|L2];
    try reflexivity; rewrite H in L1; exfalso;
    apply (Qlt_irrefl p); eauto using Qle_lt_trans, Qlt_le_trans.
Qed.

Lemma transmissions_at_same_draws num_nodes p num_slots g1 g2 i :
  same_draws (num_slots * Z.to_nat num_nodes) g1 g2 ->
  (i < num_slots)%nat ->
  transmissions_at num_nodes p g1 i = transmissions_at num_nodes p g2 i.
Proof.
  intros H Hi. unfold transmissions_at, samples_at. f_equal.
  apply np_less_same_draws. intros j Hj. apply in_seq in Hj.
  rewrite <- !Nat.add_assoc. apply H. nia.
Qed.

Lemma expected_trace_same_draws num_nodes p num_slots g1 g2 :
  same_draws (Z.to_nat num_slots * Z.to_nat num_nodes) g1 g2 ->
  expected_trace num_nodes p num_slots g1
  = expected_trace num_nodes p num_slots g2.
Proof.
  intros H. unfold expected_trace. apply map_ext_in. intros i Hi.
  apply in_seq in Hi. unfold outcome_at.
  rewrite (transmissions_at_same_draws num_nodes p _ g1 g2 i H) by lia.
  reflexivity.
Qed.

(** C4, counterexample.  The call has no argument for the randomness: it
    draws from numpy's global generator.  Two calls with the same three
    arguments, one after the other, return different traces. *)
Lemma ambient_generator_counterexample :
  exists st1 st2,
    call_twice (simulate_slotted_aloha 1 (1 # 2) 1) alternating
    = (Returns ([(0, 1, "Success"%string)], st1),
       Returns ([(0, 0, "Idle"%string)], st2))
    /\ [(0, 1, "Success"%string)] <> [(0, 0, "Idle"%string)].
Proof.
  do 2 eexists. split; [reflexivity | discriminate].
Qed.

(** C4, amended.  The outcome of a call is decided by its three arguments
    and by the next [num_slots * num_nodes] samples of the global
    generator: two calls with the same arguments whose generators hand out
    the same samples end alike, with the same trace and statistics; a call
    that returns leaves the generator advanced by that many samples. *)
Theorem outcome_decided_by_arguments_and_draws num_nodes p num_slots g1 g2 :
  same_draws (Z.to_nat num_slots * Z.to_nat num_nodes) g1 g2 ->
  fst (simulate_slotted_aloha num_nodes p num_slots g1)
  = fst (simulate_slotted_aloha num_nodes p num_slots g2)
  /\ (0 <= num_nodes -> num_slots <> 0 ->
      snd (simulate_slotted_aloha num_nodes p num_slots g1)
      = advance g1 (Z.to_nat num_slots * Z.to_nat num_nodes)).
Proof.
  intros H. split.
  - destruct (Z.eq_dec num_slots 0) as [->|Hs].
    + now rewrite !simulate_zero_slots.
    + destruct (Z_lt_le_dec num_nodes 0) as [Hn|Hn].
      * destruct (Z_lt_le_dec num_slots 0) as [Hneg|Hpos].
        -- now rewrite !(simulate_negative_slots _ _ _ _ Hneg).
        -- now rewrite !simulate_negative_nodes by lia.
      * rewrite !(simulate_spec _ _ _ _ Hn Hs).
        now rewrite (expected_trace_same_draws _ _ _ _ _ H).
  - intros Hn Hs. now rewrite (simulate_spec _ _ _ _ Hn Hs).
Qed.

Lemma alternating_same_draws :
  same_draws (Z.to_nat 2 * Z.to_nat 3) alternating alternating_shifted.
Proof.
  intros i Hi. simpl in Hi.
  do 6 (destruct i as [|i]; [reflexivity|]). lia.
Defined.

Lemma outcome_decided_by_arguments_and_draws_witness :
  fst (simulate_slotted_aloha 3 (1 # 2) 2 alternating)
  = fst (simulate_slotted_aloha 3 (1 # 2) 2 alternating_shifted)
  /\ (0 <= 3 -> 2 <> 0 ->
      snd (simulate_slotted_aloha 3 (1 # 2) 2 alternating)
      = advance alternating (Z.to_nat 2 * Z.to_nat 3)).
Proof.
  apply (outcome_decided_by_arguments_and_draws
           3 (1 # 2) 2 alternating alternating_shifted).
  exact alternating_same_draws.
Defined.

(** ** Derived statistics *)

(** C5. With valid parameters the derived fields of the statistics are:
    throughput = successful / num_slots, a number between 0 and 1;
    offered load = num_nodes * p; theoretical maximum = 1/e; efficiency =
    (throughput / (1/e)) * 100, the division being by the constant 1/e. *)
Theorem derived_statistics num_nodes p num_slots g :
  1 <= num_nodes -> (0 <= p)%Q -> (p <= 1)%Q -> 1 <= num_slots ->
  exists tr st g',
    simulate_slotted_aloha num_nodes p num_slots g = (Returns (tr, st), g')
    /\ Stats.throughput st
       = (IZR (Stats.successful st) / IZR num_slots)%R
    /\ (0 <= Stats.throughput st <= 1)%R
    /\ Stats.offered_load st = (IZR num_nodes * Q2R p)%R
    /\ Stats.theoretical_max st = (1 / exp 1)%R
    /\ Stats.efficiency st
       = (Stats.throughput st / Stats.theoretical_max st * 100)%R
    /\ Stats.efficiency st = (Stats.throughput st / (1 / exp 1) * 100)%R.
Proof.
  intros Hn _ _ Hs.
  exists (expected_trace num_nodes p num_slots g),
         (expected_statistics num_nodes p num_slots
            (expected_trace num_nodes p num_slots g)),
         (advance g (Z.to_nat num_slots * Z.to_nat num_nodes)).
  split; [apply simulate_spec; lia|].
  split; [reflexivity|].
  split; [|repeat split].
  simpl.
  set (tr := expected_trace num_nodes p num_slots g).
  pose proof (count_status_nonneg "Success" tr) as Lo.
  pose proof (count_status_le_length "Success" tr) as Hi.
  unfold tr in Hi at 2. rewrite expected_trace_length in Hi.
  rewrite Z2Nat.id in Hi by lia.
  apply IZR_le in Lo, Hi.
  assert (0 < IZR num_slots)%R as Hpos by (apply IZR_lt; lia).
  split.
  - apply Rmult_le_pos; [exact Lo | left; apply Rinv_0_lt_compat; exact Hpos].
  - apply Rmult_le_reg_r with (r := IZR num_slots); [exact Hpos|].
    unfold Rdiv. rewrite Rmult_assoc, Rinv_l, Rmult_1_r, Rmult_1_l.
    + exact Hi.
    + apply Rgt_not_eq. exact Hpos.
Qed.

Lemma derived_statistics_witness :
  exists tr st g',
    simulate_slotted_aloha 3 (1 # 2) 4 alternating = (Returns (tr, st), g')
    /\ Stats.throughput st = (IZR (Stats.successful st) / IZR 4)%R
    /\ (0 <= Stats.throughput st <= 1)%R
    /\ Stats.offered_load st = (IZR 3 * Q2R (1 # 2))%R
    /\ Stats.theoretical_max st = (1 / exp 1)%R
    /\ Stats.efficiency st
       = (Stats.throughput st / Stats.theoretical_max st * 100)%R
    /\ Stats.efficiency st = (Stats.throughput st / (1 / exp 1) * 100)%R.
Proof.
  apply (derived_statistics 3 (1 # 2) 4 alternating).
  - lia.
  - discriminate.
  - discriminate.
  - lia.
Defined.

(** ** Degenerate parameters *)

Lemma transmissions_at_none num_nodes p g i :
  unit_interval g -> (p <= 0)%Q -> transmissions_at num_nodes p g i = 0.
Proof.
  intros U Hp. unfold transmissions_at. apply np_sum_none.
  unfold np_less, samples_at. rewrite map_map. apply Forall_forall.
  intros b Hb. apply in_map_iff in Hb. destruct Hb as [j [<- _]].
  destruct (Qlt_le_dec _ p) as [L|L]; [|reflexivity].
  exfalso. destruct (U (pos g + i * Z.to_nat num_nodes + j)%nat) as [Lo _].
  apply (Qlt_irrefl p). eauto using Qle_lt_trans, Qlt_le_trans, Qle_trans.
Qed.

Lemma transmissions_at_all num_nodes p g i :
  unit_interval g -> (1 <= p)%Q -> 0 <= num_nodes ->
  transmissions_at num_nodes p g i = num_nodes.
Proof.
  intros U Hp Hn. unfold transmissions_at. rewrite np_sum_all.
  - rewrite np_less_length, samples_at_length. lia.
  - unfold np_less, samples_at. rewrite map_map. apply Forall_forall.
    intros b Hb. apply in_map_iff in Hb. destruct Hb as [j [<- _]].
    destruct (Qlt_le_dec _ p) as [L|L]; [reflexivity|].
    exfalso. destruct (U (pos g + i * Z.to_nat num_nodes + j)%nat) as [_ Hi].
    apply (Qlt_irrefl p). eauto using Qle_lt_trans, Qlt_le_trans, Qle_trans.
Qed.

Lemma count_status_absent s t :
  Forall (fun e => status_of e <> s) t -> count_status s t = 0.
Proof.
  induction 1 as [|e t He _ IH]; [reflexivity|].
  rewrite count_status_cons, IH.
  destruct (String.eqb_spec (status_of e) s); [contradiction | reflexivity].
Qed.

(** C8. Degenerate parameters, the samples lying in [0, 1): the trace has
    one entry per slot and, with [p] = 0, every slot is Idle, so that all
    [num_slots] slots are counted idle and the throughput is 0; with
    [p] = 1 and at least two nodes every slot is a Collision in which all
    the nodes transmit, so that all [num_slots] slots are counted as
    collisions and no transmission succeeds; with a single node no slot has
    more than one transmitter, hence no slot is a Collision and the
    collision counter stays 0. *)
Theorem degenerate_parameters num_nodes p num_slots g :
  unit_interval g -> 1 <= num_nodes -> 1 <= num_slots ->
  exists tr st g',
    simulate_slotted_aloha num_nodes p num_slots g = (Returns (tr, st), g')
    /\ Z.of_nat (length tr) = num_slots
    /\ ((p == 0)%Q ->
        Forall (fun e => status_of e = "Idle"%string
                         /\ transmissions_of e = 0) tr
        /\ Stats.idle st = num_slots
        /\ Stats.successful st = 0
        /\ Stats.collisions st = 0
        /\ Stats.throughput st = 0%R)
    /\ ((p == 1)%Q -> 2 <= num_nodes ->
        Forall (fun e => status_of e = "Collision"%string
                         /\ transmissions_of e = num_nodes) tr
        /\ Stats.collisions st = num_slots
        /\ Stats.successful st = 0
        /\ Stats.idle st = 0)
    /\ (num_nodes = 1 ->
        Forall (fun e => transmissions_of e <= 1
                         /\ status_of e <> "Collision"%string) tr
        /\ Stats.collisions st = 0
        /\ Stats.successful st + Stats.idle st = num_slots).
Proof.
  intros U Hn Hs.
  set (tr := expected_trace num_nodes p num_slots g).
  exists tr, (expected_statistics num_nodes p num_slots tr),
         (advance g (Z.to_nat num_slots * Z.to_nat num_nodes)).
  pose proof (count_status_partition tr (expected_trace_statuses _ _ _ _)) as P.
  unfold tr in P at 4. rewrite expected_trace_length, Z2Nat.id in P by lia.
  split; [apply simulate_spec; lia|].
  split; [unfold tr; rewrite expected_trace_length; lia|].
  split; [|split].
  - intros Hp.
    assert (Forall (fun e => status_of e = "Idle"%string
                             /\ transmissions_of e = 0) tr) as F.
    { apply Forall_forall. intros e He.
      apply expected_trace_In in He. destruct He as [i [_ ->]].
      unfold outcome_at, status_of, transmissions_of. simpl.
      rewrite transmissions_at_none; [split; reflexivity | exact U |].
      rewrite Hp. apply Qle_refl. }
    assert (count_status "Success" tr = 0) as S0.
    { apply count_status_absent. eapply Forall_impl; [|exact F].
      intros e [-> _]. discriminate. }
    assert (count_status "Collision" tr = 0) as C0.
    { apply count_status_absent. eapply Forall_impl; [|exact F].
      intros e [-> _]. discriminate. }
    split; [exact F|]. simpl.
    split; [lia|]. split; [exact S0|]. split; [exact C0|].
    rewrite S0. unfold Rdiv. apply Rmult_0_l.
  - intros Hp Hn2.
    assert (Forall (fun e => status_of e = "Collision"%string
                             /\ transmissions_of e = num_nodes) tr) as F.
    { apply Forall_forall. intros e He.
      apply expected_trace_In in He. destruct He as [i [_ ->]].
      unfold outcome_at, status_of, transmissions_of. simpl.
      rewrite transmissions_at_all; [| exact U | rewrite Hp; apply Qle_refl | lia].
      split; [|reflexivity].
      apply status_rule_collision; lia. }
    assert (count_status "Success" tr = 0) as S0.
    { apply count_status_absent. eapply Forall_impl; [|exact F].
      intros e [-> _]. discriminate. }
    assert (count_status "Idle" tr = 0) as I0.
    { apply count_status_absent. eapply Forall_impl; [|exact F].
      intros e [-> _]. discriminate. }
    split; [exact F|]. simpl.
    split; [lia|]. split; [exact S0 | exact I0].
  - intros N1.
    assert (Forall (fun e => transmissions_of e <= 1
                             /\ status_of e <> "Collision"%string) tr) as F.
    { apply Forall_forall. intros e He.
      apply expected_trace_In in He. destruct He as [i [_ ->]].
      unfold outcome_at, status_of, transmissions_of. simpl.
      pose proof (transmissions_at_bounds num_nodes p g i ltac:(lia)) as B.
      split; [lia|].
      intros C. apply status_rule_collision in C; lia. }
    assert (count_status "Collision" tr = 0) as C0.
    { apply count_status_absent. eapply Forall_impl; [|exact F].
      intros e [_ Ne]. exact Ne. }
    split; [exact F|]. simpl. split; [exact C0 | lia].
Qed.

Lemma degenerate_parameters_witness :
  (exists tr st g',
      simulate_slotted_aloha 3 0 2 alternating = (Returns (tr, st), g')
      /\ Z.of_nat (length tr) = 2
      /\ Forall (fun e => status_of e = "Idle"%string
                          /\ transmissions_of e = 0) tr
      /\ Stats.idle st = 2
      /\ Stats.throughput st = 0%R)
  /\ (exists tr st g',
        simulate_slotted_aloha 3 1 2 alternating = (Returns (tr, st), g')
        /\ Z.of_nat (length tr) = 2
        /\ Forall (fun e => status_of e = "Collision"%string
                            /\ transmissions_of e = 3) tr
        /\ Stats.collisions st = 2
        /\ Stats.successful st = 0)
  /\ (exists tr st g',
        simulate_slotted_aloha 1 (1 # 2) 2 alternating = (Returns (tr, st), g')
        /\ Z.of_nat (length tr) = 2
        /\ Forall (fun e => transmissions_of e <= 1
                            /\ status_of e <> "Collision"%string) tr
        /\ Stats.collisions st = 0).
Proof.
  split; [|split].
  - destruct (degenerate_parameters 3 0 2 alternating
                alternating_unit_interval ltac:(lia) ltac:(lia))
      as [tr [st [g' [E [L [H0 _]]]]]].
    destruct (H0 ltac:(reflexivity)) as [F [I [_ [_ T]]]].
    exists tr, st, g'. repeat split; assumption.
  - destruct (degenerate_parameters 3 1 2 alternating
                alternating_unit_interval ltac:(lia) ltac:(lia))
      as [tr [st [g' [E [L [_ [H1 _]]]]]]].
    destruct (H1 ltac:(reflexivity) ltac:(lia)) as [F [C [S _]]].
    exists tr, st, g'. repeat split; assumption.
  - destruct (degenerate_parameters 1 (1 # 2) 2 alternating
                alternating_unit_interval ltac:(lia) ltac:(lia))
      as [tr [st [g' [E [L [_ [_ H2]]]]]]].
    destruct (H2 ltac:(reflexivity)) as [F [C _]].
    exists tr, st, g'. repeat split; assumption.
Defined.

(** ** The theoretical curve *)

Lemma np_mul_exp_neg G_values :
  np_mul G_values (np_exp (np_neg G_values)) = map S_of_G G_values.
Proof.
  unfold np_exp, np_neg.
  induction G_values as [|x a IH]; simpl; [reflexivity|].
  now rewrite IH.
Qed.

Lemma exp_minus_1 : exp (- 1) = (/ exp 1)%R.
Proof. apply exp_Ropp. Qed.

(** The curve lies below 1/e, and strictly so away from G = 1. *)
Lemma S_of_G_le_max G : (S_of_G G <= / exp 1)%R.
Proof.
  unfold S_of_G. rewrite <- exp_minus_1.
  replace (exp (- 1)) with (exp (G - 1) * exp (- G))%R
    by (rewrite <- exp_plus; f_equal; ring).
  apply Rmult_le_compat_r; [left; apply exp_pos|].
  pose proof (exp_ineq1_le (G - 1)) as H. lra.
Qed.

Lemma S_of_G_lt_max G : G <> 1%R -> (S_of_G G < / exp 1)%R.
Proof.
  intros HG. unfold S_of_G. rewrite <- exp_minus_1.
  replace (exp (- 1)) with (exp (G - 1) * exp (- G))%R
    by (rewrite <- exp_plus; f_equal; ring).
  apply Rmult_lt_compat_r; [apply exp_pos|].
  assert (G - 1 <> 0)%R as H0 by lra.
  pose proof (exp_ineq1 (G - 1) H0) as H. lra.
Qed.

Lemma S_of_G_at_1 : S_of_G 1 = (/ exp 1)%R.
Proof. unfold S_of_G. rewrite exp_Ropp. ring. Qed.

(** 1/e between two consecutive partial sums of its alternating series. *)
Lemma inv_fact_decreasing : Un_decreasing inv_fact.
Proof.
  intros n. unfold inv_fact.
  apply Rinv_le_contravar; [apply INR_fact_lt_0|].
  apply le_INR, fact_le. lia.
Qed.

Lemma inv_fact_cv : Un_cv inv_fact 0.
Proof.
  apply Un_cv_ext with (un := fun n => (1 ^ n / INR (fact n))%R).
  - intros n. unfold inv_fact. rewrite pow1. unfold Rdiv. ring.
  - apply cv_speed_pow_fact.
Qed.

Lemma exp_minus_1_series :
  Un_cv (fun N => sum_f_R0 (tg_alt inv_fact) N) (exp (- 1)).
Proof.
  apply Un_cv_ext
    with (un := fun N => sum_f_R0 (fun i => (/ INR (fact i) * (- 1) ^ i)%R) N).
  - intros n. apply sum_eq. intros i _. unfold tg_alt, inv_fact. ring.
  - exact (proj2_sig (exist_exp (- 1))).
Qed.

Lemma exp_minus_1_between N :
  (sum_f_R0 (tg_alt inv_fact) (S (2 * N)) <= exp (- 1)
   <= sum_f_R0 (tg_alt inv_fact) (2 * N))%R.
Proof.
  apply alternated_series_ineq.
  - exact inv_fact_decreasing.
  - exact inv_fact_cv.
  - exact exp_minus_1_series.
Qed.

Lemma INR_fact_factZ k : INR (fact k) = IZR (factZ k).
Proof.
  induction k as [|k IH]; [reflexivity|].
  rewrite fact_simpl, mult_INR, IH, INR_IZR_INZ.
  change (factZ (S k)) with (Z.of_nat (S k) * factZ k).
  now rewrite mult_IZR.
Qed.

Lemma factZ_pos k : 0 < factZ k.
Proof.
  induction k as [|k IH]; [reflexivity|].
  change (factZ (S k)) with (Z.of_nat (S k) * factZ k). nia.
Qed.

Lemma pow_minus_1_even k :
  ((- 1) ^ k)%R = IZR (if Nat.even k then 1 else -1).
Proof.
  induction k as [|k IH]; [simpl; reflexivity|].
  rewrite Nat.even_succ, <- Nat.negb_even.
  simpl pow. rewrite IH. destruct (Nat.even k); simpl; lra.
Qed.

Lemma alt_partial_sum k :
  sum_f_R0 (tg_alt inv_fact) k = (IZR (alt_numerator k) / IZR (factZ k))%R.
Proof.
  induction k as [|k IH].
  - simpl. unfold tg_alt, inv_fact. simpl. lra.
  - simpl sum_f_R0. rewrite IH. unfold tg_alt, inv_fact.
    rewrite pow_minus_1_even, !INR_fact_factZ.
    change (factZ (S k)) with (Z.of_nat (S k) * factZ k).
    change (alt_numerator (S k))
      with (Z.of_nat (S k) * alt_numerator k
            + (if Nat.even (S k) then 1 else -1)).
    rewrite plus_IZR, !mult_IZR.
    assert (IZR (factZ k) <> 0)%R as Hf
        by (apply not_0_IZR; pose proof (factZ_pos k); lia).
    assert (IZR (Z.of_nat (S k)) <> 0)%R as Hk by (apply not_0_IZR; lia).
    field. split; assumption.
Qed.

Lemma exp_minus_1_approx :
  (367878 / 1000000 < exp (- 1) < 367880 / 1000000)%R.
Proof.
  pose proof (exp_minus_1_between 5) as [Lo Hi].
  change (S (2 * 5)) with 11%nat in Lo. change (2 * 5)%nat with 10%nat in Hi.
  rewrite alt_partial_sum in Lo, Hi.
  change (alt_numerator 11) with 14684570 in Lo.
  change (factZ 11) with 39916800 in Lo.
  change (alt_numerator 10) with 1334961 in Hi.
  change (factZ 10) with 3628800 in Hi.
  lra.
Qed.

Lemma nth_map_in_range {A B : Type} (f : A -> B) (l : list A) d d' i :
  (i < length l)%nat -> nth i (map f l) d' = f (nth i l d).
Proof.
  intros H. rewrite (nth_indep _ d' (f d)) by (now rewrite length_map).
  apply map_nth.
Qed.

Lemma get_theoretical_throughput_spec G_values :
  get_theoretical_throughput G_values = Returns (map S_of_G G_values).
Proof. unfold get_theoretical_throughput. now rewrite np_mul_exp_neg. Qed.

(** C6. For loads that are not negative the curve has one value per load,
    S(G) = G e^(-G); for the single load 1 it is 1 * e^(-1), which is
    0.367879 up to 10^-6; and when 1 is among the loads the largest value
    is the one at G = 1, namely 1/e. *)
Theorem theoretical_curve :
  (forall G_values,
      Forall (fun G => 0 <= G)%R G_values ->
      exists S_values,
        get_theoretical_throughput G_values = Returns S_values
        /\ length S_values = length G_values
        /\ (forall i, (i < length G_values)%nat ->
              nth i S_values 0%R
              = (nth i G_values 0 * exp (- nth i G_values 0))%R)
        /\ (In 1%R G_values ->
            In (/ exp 1)%R S_values
            /\ (forall i, (i < length G_values)%nat ->
                  (nth i S_values 0 <= / exp 1)%R)
            /\ (forall i, (i < length G_values)%nat ->
                  nth i G_values 0%R = 1%R ->
                  nth i S_values 0%R = (/ exp 1)%R)
            /\ (forall i, (i < length G_values)%nat ->
                  nth i G_values 0%R <> 1%R ->
                  (nth i S_values 0 < / exp 1)%R)))
  /\ get_theoretical_throughput [1%R] = Returns [(1 * exp (- (1)))%R]
  /\ (Rabs (1 * exp (- (1)) - 367879 / 1000000) < 1 / 1000000)%R.
Proof.
  split; [|split].
  - intros G_values _. exists (map S_of_G G_values).
    split; [apply get_theoretical_throughput_spec|].
    split; [apply length_map|].
    split.
    + intros i Hi. now rewrite (nth_map_in_range S_of_G G_values 0%R).
    + intros H1. split; [|split; [|split]].
      * rewrite <- S_of_G_at_1. now apply in_map.
      * intros i Hi. rewrite (nth_map_in_range S_of_G G_values 0%R) by exact Hi.
        apply S_of_G_le_max.
      * intros i Hi E. rewrite (nth_map_in_range S_of_G G_values 0%R) by exact Hi.
        rewrite E. apply S_of_G_at_1.
      * intros i Hi E. rewrite (nth_map_in_range S_of_G G_values 0%R) by exact Hi.
        now apply S_of_G_lt_max.
  - reflexivity.
  - replace (- (1))%R with (-1)%R by lra.
    pose proof exp_minus_1_approx as [Lo Hi].
    apply Rabs_def1; lra.
Qed.

Lemma theoretical_curve_witness :
  Forall (fun G => 0 <= G)%R [0%R; (1 / 2)%R; 1%R; 2%R]
  /\ exists S_values,
       get_theoretical_throughput [0%R; (1 / 2)%R; 1%R; 2%R] = Returns S_values
       /\ length S_values = 4%nat
       /\ In (/ exp 1)%R S_values
       /\ (nth 3 S_values 0 < / exp 1)%R.
Proof.
  assert (Forall (fun G => 0 <= G)%R [0%R; (1 / 2)%R; 1%R; 2%R]) as F
      by (repeat constructor; lra).
  split; [exact F|].
  destruct (proj1 theoretical_curve [0%R; (1 / 2)%R; 1%R; 2%R] F)
    as [S_values [E [L [_ M]]]].
  destruct (M ltac:(simpl; tauto)) as [I [_ [_ Lt]]].
  exists S_values. split; [exact E|]. split; [exact L|]. split; [exact I|].
  apply Lt; simpl; [lia | lra].
Defined.

(** C7, counterexample.  For the load -1 a value is computed and returned,
    and it is negative: nothing is rejected. *)
Lemma negative_load_counterexample :
  exists S_value,
    get_theoretical_throughput [(-1)%R] = Returns [S_value]
    /\ S_value = (-1 * exp 1)%R
    /\ (S_value < 0)%R.
Proof.
  exists (-1 * exp (- -1))%R. split; [reflexivity|].
  replace (- -1)%R with 1%R by lra.
  split; [reflexivity|]. pose proof (exp_pos 1). lra.
Qed.

(** C7, amended.  The function checks nothing and cannot fail: for every
    sequence of loads, negative ones included, it returns one value
    G e^(-G) per load, and the value of a negative load is negative. *)
Theorem curve_is_total_and_unchecked G_values :
  exists S_values,
    get_theoretical_throughput G_values = Returns S_values
    /\ length S_values = length G_values
    /\ (forall i, (i < length G_values)%nat ->
          nth i S_values 0%R
          = (nth i G_values 0 * exp (- nth i G_values 0))%R)
    /\ (forall i, (i < length G_values)%nat ->
          (nth i G_values 0 < 0)%R -> (nth i S_values 0 < 0)%R).
Proof.
  exists (map S_of_G G_values).
  split; [apply get_theoretical_throughput_spec|].
  split; [apply length_map|].
  split.
  - intros i Hi. now rewrite (nth_map_in_range S_of_G G_values 0%R).
  - intros i Hi Neg. rewrite (nth_map_in_range S_of_G G_values 0%R) by exact Hi.
    unfold S_of_G.
    pose proof (exp_pos (- nth i G_values 0%R)) as P. nra.
Qed.

(** ** The export and its round trip *)

Lemma free_of_app c s1 s2 :
  free_of c s1 -> free_of c s2 -> free_of c (s1 ++ s2)%string.
Proof.
  induction s1 as [|a s1 IH]; simpl; [tauto|].
  intros [Ha H1] H2. split; [exact Ha | now apply IH].
Qed.

Lemma split_on_nonempty c s : split_on c s <> [].
Proof.
  destruct s as [|a s]; simpl; [discriminate|].
  destruct (Ascii.eqb a c); [discriminate|].
  destruct (split_on c s); discriminate.
Qed.

Lemma split_on_free c s : free_of c s -> split_on c s = [s].
Proof.
  induction s as [|a s IH]; simpl; [reflexivity|].
  intros [Ha Hs]. destruct (Ascii.eqb_spec a c); [contradiction|].
  now rewrite (IH Hs).
Qed.

Lemma split_on_app c s1 s2 :
  free_of c s1 ->
  split_on c (s1 ++ String c s2)%string = s1 :: split_on c s2.
Proof.
  induction s1 as [|a s1 IH]; simpl.
  - intros _. now rewrite Ascii.eqb_refl.
  - intros [Ha Hs]. destruct (Ascii.eqb_spec a c); [contradiction|].
    now rewrite (IH Hs).
Qed.

Ltac other_char :=
  let H := fresh in
  intros H; vm_compute in H; discriminate H.

Lemma digits_free_of c d :
  separator c -> free_of c (NilEmpty.string_of_uint d).
Proof.
  intros [-> | ->]; induction d; simpl; try split; auto; other_char.
Qed.

Lemma str_free_of c z : separator c -> free_of c (str z).
Proof.
  intros Hc. unfold str.
  assert (forall d, free_of c (NilZero.string_of_uint d)) as U.
  { intros d. pose proof (digits_free_of c d Hc) as F.
    destruct d; try exact F.
    destruct Hc as [-> | ->]; simpl; split; auto; other_char. }
  destruct (Z.to_int z) as [d|d]; simpl.
  - apply U.
  - split; [|apply U]. destruct Hc as [-> | ->]; other_char.
Qed.

Lemma status_free_of c s : separator c -> is_status s -> free_of c s.
Proof.
  intros [-> | ->] [-> | [-> | ->]]; simpl; repeat split; other_char.
Qed.

Lemma is_status_b_true s : is_status s -> is_status_b s = true.
Proof. intros [-> | [-> | ->]]; reflexivity. Qed.

Lemma parse_int_str z : parse_int (str z) = Some z.
Proof.
  unfold parse_int, str. rewrite NilZero.isi.
  - simpl. now rewrite DecimalZ.of_to.
  - destruct z; simpl; try discriminate.
    intros [= E]. now apply Unsigned.to_uint_nonnil in E.
  - destruct z; simpl; try discriminate.
    intros [= E]. now apply Unsigned.to_uint_nonnil in E.
Qed.

Lemma split_csv_row e :
  is_status (status_of e) ->
  split_on comma (csv_row e)
  = [str (slot_of e); str (transmissions_of e); status_of e].
Proof.
  intros Hs. unfold csv_row.
  rewrite split_on_app by (apply str_free_of; now left).
  rewrite split_on_app by (apply str_free_of; now left).
  rewrite split_on_free by (apply status_free_of; [now left | exact Hs]).
  reflexivity.
Qed.

Lemma parse_row_csv_row e :
  is_status (status_of e) -> parse_row (csv_row e) = Some e.
Proof.
  intros Hs. unfold parse_row. rewrite (split_csv_row e Hs).
  rewrite !parse_int_str, (is_status_b_true _ Hs).
  destruct e as [[slot n] status]. reflexivity.
Qed.

Lemma csv_row_one_line e :
  is_status (status_of e) -> free_of line_feed (csv_row e).
Proof.
  intros Hs. unfold csv_row.
  apply free_of_app; [apply str_free_of; now right|].
  split; [other_char|].
  apply free_of_app; [apply str_free_of; now right|].
  split; [other_char|].
  apply status_free_of; [now right | exact Hs].
Qed.

Lemma write_lines_cons l ls :
  write_lines (l :: ls) = (l ++ String line_feed (write_lines ls))%string.
Proof. reflexivity. Qed.

Lemma parse_rows_write_lines tr :
  Forall (fun e => is_status (status_of e)) tr ->
  parse_rows (split_on line_feed (write_lines (map csv_row tr))) = Some tr.
Proof.
  induction 1 as [|e tr He _ IH]; [reflexivity|].
  simpl map. simpl write_lines.
  rewrite split_on_app by (now apply csv_row_one_line).
  destruct (split_on line_feed (write_lines (map csv_row tr))) as [|l ls] eqn:E.
  - now apply split_on_nonempty in E.
  - change (parse_rows (csv_row e :: l :: ls))
      with (match parse_row (csv_row e), parse_rows (l :: ls) with
            | Some e', Some es => Some (e' :: es)
            | _, _ => None
            end).
    now rewrite (parse_row_csv_row e He), IH.
Qed.

Lemma export_csv_lines tr :
  export_csv tr
  = write_lines ("Slot,Transmissions,Status"%string :: map csv_row tr).
Proof.
  unfold export_csv, to_csv, pd_DataFrame. simpl columns. simpl rows.
  rewrite map_map. reflexivity.
Qed.

Lemma read_csv_export_csv tr :
  Forall (fun e => is_status (status_of e)) tr ->
  read_csv (export_csv tr) = Some tr.
Proof.
  intros H. rewrite export_csv_lines. unfold read_csv.
  rewrite write_lines_cons.
  rewrite (split_on_app line_feed "Slot,Transmissions,Status")
    by (simpl; repeat split; other_char).
  rewrite String.eqb_refl. now apply parse_rows_write_lines.
Qed.

(** The trace of every run can be exported and read back. *)
Lemma export_round_trip_of_run num_nodes p num_slots g tr st g' :
  simulate_slotted_aloha num_nodes p num_slots g = (Returns (tr, st), g') ->
  read_csv (export_csv tr) = Some tr.
Proof.
  intros H. apply simulate_returns_inv in H. destruct H as [-> _].
  apply read_csv_export_csv, expected_trace_statuses.
Qed.

(** C9. The export of a trace is a three-column table: the header line
    [Slot,Transmissions,Status], then one line per outcome in the order of
    the trace, each made of the slot number, the transmitter count and the
    status written as Idle, Success or Collision; reading the text back
    gives the trace again. *)
Theorem export_round_trip tr :
  Forall (fun e => is_status (status_of e)) tr ->
  export_csv tr
  = write_lines ("Slot,Transmissions,Status"%string :: map csv_row tr)
  /\ split_on comma "Slot,Transmissions,Status"
     = ["Slot"%string; "Transmissions"%string; "Status"%string]
  /\ length (map csv_row tr) = length tr
  /\ (forall e, In e tr ->
        split_on comma (csv_row e)
        = [str (slot_of e); str (transmissions_of e); status_of e]
        /\ is_status (status_of e))
  /\ read_csv (export_csv tr) = Some tr.
Proof.
  intros H.
  split; [apply export_csv_lines|].
  split; [reflexivity|].
  split; [apply length_map|].
  split.
  - intros e He. rewrite Forall_forall in H.
    split; [apply split_csv_row|]; now apply H.
  - now apply read_csv_export_csv.
Qed.

Lemma export_round_trip_witness :
  Forall (fun e => is_status (status_of e))
         [(0, 0, "Idle"%string); (1, 1, "Success"%string);
          (2, 3, "Collision"%string)]
  /\ export_csv [(0, 0, "Idle"%string); (1, 1, "Success"%string);
                 (2, 3, "Collision"%string)]
     = write_lines ["Slot,Transmissions,Status"%string; "0,0,Idle"%string;
                    "1,1,Success"%string; "2,3,Collision"%string]
  /\ read_csv (export_csv [(0, 0, "Idle"%string); (1, 1, "Success"%string);
                           (2, 3, "Collision"%string)])
     = Some [(0, 0, "Idle"%string); (1, 1, "Success"%string);
             (2, 3, "Collision"%string)].
Proof.
  assert (Forall (fun e => is_status (status_of e))
                 [(0, 0, "Idle"%string); (1, 1, "Success"%string);
                  (2, 3, "Collision"%string)]) as F.
  { repeat constructor; unfold is_status; simpl; tauto. }
  split; [exact F|].
  destruct (export_round_trip _ F) as [E [_ [_ [_ R]]]].
  split; [exact E | exact R].
Defined.

(** ** Further properties of the simulator *)

Lemma alternating_run :
  simulate_slotted_aloha 3 (1 # 2) 4 alternating
  = (Returns (expected_trace 3 (1 # 2) 4 alternating,
              expected_statistics 3 (1 # 2) 4
                (expected_trace 3 (1 # 2) 4 alternating)),
     advance alternating 12).
Proof. reflexivity. Qed.

Lemma alternating_trace :
  expected_trace 3 (1 # 2) 4 alternating
  = [(0, 2, "Collision"%string); (1, 1, "Success"%string);
     (2, 2, "Collision"%string); (3, 1, "Success"%string)].
Proof. vm_compute. reflexivity. Qed.

Lemma expected_trace_bounds num_nodes p num_slots g :
  0 <= num_nodes ->
  Forall (fun e => 0 <= transmissions_of e <= num_nodes
                   /\ 0 <= slot_of e < num_slots)
         (expected_trace num_nodes p num_slots g).
Proof.
  intros Hn. apply Forall_forall. intros e He.
  apply expected_trace_In in He. destruct He as [i [Hi ->]].
  split; [apply transmissions_at_bounds; exact Hn|].
  unfold outcome_at, slot_of. simpl. lia.
Qed.

(** X1. In every trace a call returns, each transmitter count lies between
    0 and [num_nodes] and each slot number between 0 and [num_slots] - 1,
    whatever the arguments were. *)
Theorem entries_within_bounds num_nodes p num_slots g tr st g' :
  simulate_slotted_aloha num_nodes p num_slots g = (Returns (tr, st), g') ->
  Forall (fun e => 0 <= transmissions_of e <= num_nodes
                   /\ 0 <= slot_of e < num_slots) tr.
Proof.
  intros H. apply simulate_returns_inv in H. destruct H as [-> [_ [Hs Hn]]].
  destruct (Z_lt_le_dec num_slots 0) as [Hneg|Hpos].
  - rewrite expected_trace_no_slot by lia. constructor.
  - apply expected_trace_bounds. lia.
Qed.

Lemma entries_within_bounds_witness :
  Forall (fun e => 0 <= transmissions_of e <= 3 /\ 0 <= slot_of e < 4)
         [(0, 2, "Collision"%string); (1, 1, "Success"%string);
          (2, 2, "Collision"%string); (3, 1, "Success"%string)].
Proof.
  rewrite <- alternating_trace.
  exact (entries_within_bounds 3 (1 # 2) 4 alternating _ _ _ alternating_run).
Defined.

(** X2. How a call ends is decided by two of its arguments: it raises
    ZeroDivisionError when [num_slots] is 0, ValueError when [num_nodes] is
    negative and there is at least one slot, and returns in every other
    case; a call that raises has consumed no sample of the generator. *)
Theorem call_ends_by_arguments num_nodes p num_slots g :
  (num_slots = 0 ->
   simulate_slotted_aloha num_nodes p num_slots g
   = (Raises ZeroDivisionError, g))
  /\ (num_nodes < 0 -> 1 <= num_slots ->
      simulate_slotted_aloha num_nodes p num_slots g = (Raises ValueError, g))
  /\ (num_slots <> 0 -> 0 <= num_nodes \/ num_slots < 0 ->
      exists tr st g',
        simulate_slotted_aloha num_nodes p num_slots g
        = (Returns (tr, st), g'))
  /\ (forall e g',
        simulate_slotted_aloha num_nodes p num_slots g = (Raises e, g') ->
        g' = g).
Proof.
  split; [intros ->; apply simulate_zero_slots|].
  split; [apply simulate_negative_nodes|].
  split.
  - intros Hs [Hn|Hneg].
    + do 3 eexists. apply simulate_spec; assumption.
    + do 3 eexists. apply simulate_negative_slots; assumption.
  - intros e g' H.
    destruct (Z.eq_dec num_slots 0) as [->|Hs].
    + rewrite simulate_zero_slots in H. now injection H.
    + destruct (Z_lt_le_dec num_nodes 0) as [Hn|Hn].
      * destruct (Z_lt_le_dec num_slots 0) as [Hneg|Hpos].
        -- rewrite (simulate_negative_slots _ _ _ _ Hneg) in H. discriminate.
        -- rewrite simulate_negative_nodes in H by lia. now injection H.
      * rewrite (simulate_spec _ _ _ _ Hn Hs) in H. discriminate.
Qed.

Lemma call_ends_by_arguments_witness :
  simulate_slotted_aloha 5 (1 # 2) 0 alternating
  = (Raises ZeroDivisionError, alternating)
  /\ simulate_slotted_aloha (-1) (1 # 2) 3 alternating
     = (Raises ValueError, alternating)
  /\ (exists tr st g',
        simulate_slotted_aloha (-1) (1 # 2) (-3) alternating
        = (Returns (tr, st), g')).
Proof.
  destruct (call_ends_by_arguments 5 (1 # 2) 0 alternating) as [Z0 _].
  destruct (call_ends_by_arguments (-1) (1 # 2) 3 alternating) as [_ [V _]].
  destruct (call_ends_by_arguments (-1) (1 # 2) (-3) alternating)
    as [_ [_ [R _]]].
  split; [apply Z0; reflexivity|].
  split; [apply V; lia|].
  apply R; [lia | right; lia].
Defined.

(** X3. The statistics add nothing to the trace: two calls with the same
    arguments that return the same trace, from whatever states of the
    generator, return the same statistics. *)
Theorem statistics_decided_by_trace
  num_nodes p num_slots g1 g2 tr st1 st2 g1' g2' :
  simulate_slotted_aloha num_nodes p num_slots g1 = (Returns (tr, st1), g1') ->
  simulate_slotted_aloha num_nodes p num_slots g2 = (Returns (tr, st2), g2') ->
  st1 = st2.
Proof.
  intros H1 H2.
  apply simulate_returns_inv in H1. destruct H1 as [_ [-> _]].
  apply simulate_returns_inv in H2. destruct H2 as [_ [-> _]].
  reflexivity.
Qed.

Lemma statistics_decided_by_trace_witness :
  expected_statistics 3 (1 # 2) 2 (expected_trace 3 (1 # 2) 2 alternating)
  = expected_statistics 3 (1 # 2) 2
      (expected_trace 3 (1 # 2) 2 alternating_shifted).
Proof.
  apply (statistics_decided_by_trace 3 (1 # 2) 2 alternating alternating_shifted
           (expected_trace 3 (1 # 2) 2 alternating) _ _
           (advance alternating 6) (advance alternating_shifted 6));
    reflexivity.
Defined.

Lemma returned_throughput_bounds num_nodes p num_slots g tr st g' :
  simulate_slotted_aloha num_nodes p num_slots g = (Returns (tr, st), g') ->
  (0 <= Stats.throughput st <= 1)%R.
Proof.
  intros H. apply simulate_returns_inv in H. destruct H as [-> [-> [Hs Hn]]].
  simpl.
  destruct (Z_lt_le_dec num_slots 0) as [Hneg|Hpos].
  - rewrite expected_trace_no_slot by lia. unfold count_status. simpl.
    unfold Rdiv. rewrite Rmult_0_l. lra.
  - set (tr := expected_trace num_nodes p num_slots g).
    pose proof (count_status_nonneg "Success" tr) as Lo.
    pose proof (count_status_le_length "Success" tr) as Hi.
    unfold tr in Hi at 2. rewrite expected_trace_length in Hi.
    rewrite Z2Nat.id in Hi by lia.
    apply IZR_le in Lo, Hi.
    assert (0 < IZR num_slots)%R as Hp by (apply IZR_lt; lia).
    split.
    + apply Rmult_le_pos; [exact Lo | left; apply Rinv_0_lt_compat; exact Hp].
    + apply Rmult_le_reg_r with (r := IZR num_slots); [exact Hp|].
      unfold Rdiv. rewrite Rmult_assoc, Rinv_l, Rmult_1_r, Rmult_1_l.
      * exact Hi.
      * apply Rgt_not_eq. exact Hp.
Qed.

(** X4. The efficiency is 100 e times the throughput: it lies between 0
    and 100 e, about 271.8, and it is above 100 exactly when the throughput
    of the run is above 1/e. *)
Theorem efficiency_range num_nodes p num_slots g tr st g' :
  simulate_slotted_aloha num_nodes p num_slots g = (Returns (tr, st), g') ->
  Stats.efficiency st = (100 * exp 1 * Stats.throughput st)%R
  /\ (0 <= Stats.efficiency st <= 100 * exp 1)%R
  /\ (100 < Stats.efficiency st <-> / exp 1 < Stats.throughput st)%R.
Proof.
  intros H. pose proof (returned_throughput_bounds _ _ _ _ _ _ _ H) as [Lo Hi].
  apply simulate_returns_inv in H. destruct H as [_ [E _]].
  assert (Stats.efficiency st = (100 * exp 1 * Stats.throughput st)%R) as Eff.
  { rewrite E. simpl.
    generalize (IZR (count_status "Success" tr) / IZR num_slots)%R.
    intros t. unfold np_e. field. apply Rgt_not_eq, exp_pos. }
  pose proof (exp_pos 1) as Pe.
  split; [exact Eff|]. rewrite Eff.
  split; [split; nra|].
  split; intros L.
  - apply Rmult_lt_reg_l with (r := exp 1); [exact Pe|].
    rewrite Rinv_r by lra. lra.
  - apply Rmult_lt_compat_l with (r := exp 1) in L; [|exact Pe].
    rewrite Rinv_r in L by lra. lra.
Qed.

Lemma efficiency_range_witness :
  exists st,
    st = expected_statistics 3 (1 # 2) 4 (expected_trace 3 (1 # 2) 4 alternating)
    /\ Stats.efficiency st = (100 * exp 1 * Stats.throughput st)%R
    /\ (0 <= Stats.efficiency st <= 100 * exp 1)%R
    /\ (100 < Stats.efficiency st <-> / exp 1 < Stats.throughput st)%R.
Proof.
  eexists. split; [reflexivity|].
  exact (efficiency_range 3 (1 # 2) 4 alternating _ _ _ alternating_run).
Defined.

(** X5. After a run of at least one slot the three rates of the page are
    defined, each lies between 0 and 100, they add up to 100, and the
    success rate is 100 times the throughput. *)
Theorem rates_add_up num_nodes p num_slots g tr st g' :
  simulate_slotted_aloha num_nodes p num_slots g = (Returns (tr, st), g') ->
  1 <= num_slots ->
  exists success_rate collision_rate idle_rate,
    rates st num_slots g' = (Returns (success_rate, collision_rate, idle_rate), g')
    /\ (success_rate + collision_rate + idle_rate = 100)%R
    /\ (0 <= success_rate <= 100)%R
    /\ (0 <= collision_rate <= 100)%R
    /\ (0 <= idle_rate <= 100)%R
    /\ success_rate = (Stats.throughput st * 100)%R.
Proof.
  intros H Hs. apply simulate_returns_inv in H. destruct H as [-> [-> _]].
  set (tr := expected_trace num_nodes p num_slots g).
  pose proof (count_status_partition tr (expected_trace_statuses _ _ _ _)) as P.
  unfold tr in P at 4. rewrite expected_trace_length, Z2Nat.id in P by lia.
  pose proof (count_status_nonneg "Success" tr) as A.
  pose proof (count_status_nonneg "Collision" tr) as B.
  pose proof (count_status_nonneg "Idle" tr) as C.
  unfold rates, percentage, truediv, expected_statistics. simpl.
  destruct (Z.eqb_spec num_slots 0) as [Hz|Hz]; [lia|].
  unfold bind, ret. simpl. do 3 eexists. split; [reflexivity|].
  assert (0 < IZR num_slots)%R as Hp by (apply IZR_lt; lia).
  assert (IZR (count_status "Success" tr) + IZR (count_status "Collision" tr)
          + IZR (count_status "Idle" tr) = IZR num_slots)%R as Sum
      by (rewrite <- !plus_IZR; now f_equal).
  apply IZR_le in A, B, C.
  set (a := IZR (count_status "Success" tr)) in *.
  set (b := IZR (count_status "Collision" tr)) in *.
  set (c := IZR (count_status "Idle" tr)) in *.
  set (n := IZR num_slots) in *.
  assert (forall x, (0 <= x <= n -> 0 <= x / n * 100 <= 100)%R) as Rate.
  { intros x [Lo Hi]. unfold Rdiv.
    assert (0 <= x * / n <= 1)%R as [L1 L2].
    { split.
      - apply Rmult_le_pos; [exact Lo | left; now apply Rinv_0_lt_compat].
      - apply Rmult_le_reg_r with (r := n); [exact Hp|].
        rewrite Rmult_assoc, Rinv_l, Rmult_1_r, Rmult_1_l by lra. exact Hi. }
    lra. }
  split; [|repeat split; try (apply Rate; lra)].
  replace (a / n * 100 + b / n * 100 + c / n * 100)%R
    with ((a + b + c) / n * 100)%R by (field; lra).
  rewrite Sum. field. lra.
Qed.

Lemma rates_add_up_witness :
  exists success_rate collision_rate idle_rate,
    rates (expected_statistics 3 (1 # 2) 4
             (expected_trace 3 (1 # 2) 4 alternating)) 4
          (advance alternating 12)
    = (Returns (success_rate, collision_rate, idle_rate),
       advance alternating 12)
    /\ (success_rate + collision_rate + idle_rate = 100)%R.
Proof.
  destruct (rates_add_up 3 (1 # 2) 4 alternating _ _ _ alternating_run)
    as [sr [cr [ir [E [S _]]]]]; [lia|].
  exists sr, cr, ir. split; [exact E | exact S].
Defined.

(** ** Runs one after the other, and runs with another probability *)

Lemma map_seq_from {A : Type} (f : nat -> A) a b :
  map f (seq a b) = map (fun j => f (a + j)%nat) (seq 0 b).
Proof.
  revert a. induction b as [|b IH]; intros a; [reflexivity|].
  simpl. rewrite Nat.add_0_r. f_equal.
  rewrite IH, <- seq_shift, map_map. apply map_ext. intros j.
  f_equal. lia.
Qed.

Lemma transmissions_at_advance num_nodes p g a j :
  transmissions_at num_nodes p (advance g (a * Z.to_nat num_nodes)) j
  = transmissions_at num_nodes p g (a + j).
Proof.
  unfold transmissions_at, samples_at, advance. simpl. do 2 f_equal.
  apply map_ext. intros k. f_equal. lia.
Qed.

Lemma count_status_shift s k tr :
  count_status s (map (shift_slot k) tr) = count_status s tr.
Proof.
  induction tr as [|e tr IH]; [reflexivity|].
  simpl map. rewrite !count_status_cons, IH. reflexivity.
Qed.

Lemma expected_trace_add num_nodes p s1 s2 g :
  0 <= s1 -> 0 <= s2 ->
  expected_trace num_nodes p (s1 + s2) g
  = expected_trace num_nodes p s1 g
    ++ map (shift_slot s1)
         (expected_trace num_nodes p s2
            (advance g (Z.to_nat s1 * Z.to_nat num_nodes))).
Proof.
  intros H1 H2. unfold expected_trace.
  rewrite Z2Nat.inj_add, seq_app by lia. rewrite map_app. f_equal.
  simpl. rewrite map_seq_from, map_map. apply map_ext. intros j.
  unfold outcome_at, shift_slot, slot_of, transmissions_of, status_of. simpl.
  rewrite transmissions_at_advance. do 2 f_equal. lia.
Qed.

(** X6. Runs compose: a run of [s1] slots followed by a run of [s2] slots
    leaves the generator where one run of [s1 + s2] slots leaves it, and
    the long trace is the first trace followed by the second one with its
    slot numbers moved by [s1]; each counter of the long run is the sum of
    the counters of the two short ones. *)
Theorem runs_compose num_nodes p s1 s2 g :
  0 <= num_nodes -> 1 <= s1 -> 1 <= s2 ->
  exists tr1 st1 g1 tr2 st2 g2 st,
    simulate_slotted_aloha num_nodes p s1 g = (Returns (tr1, st1), g1)
    /\ simulate_slotted_aloha num_nodes p s2 g1 = (Returns (tr2, st2), g2)
    /\ simulate_slotted_aloha num_nodes p (s1 + s2) g
       = (Returns (tr1 ++ map (shift_slot s1) tr2, st), g2)
    /\ Stats.successful st = Stats.successful st1 + Stats.successful st2
    /\ Stats.collisions st = Stats.collisions st1 + Stats.collisions st2
    /\ Stats.idle st = Stats.idle st1 + Stats.idle st2.
Proof.
  intros Hn H1 H2.
  set (g1 := advance g (Z.to_nat s1 * Z.to_nat num_nodes)).
  exists (expected_trace num_nodes p s1 g),
         (expected_statistics num_nodes p s1 (expected_trace num_nodes p s1 g)),
         g1,
         (expected_trace num_nodes p s2 g1),
         (expected_statistics num_nodes p s2 (expected_trace num_nodes p s2 g1)),
         (advance g1 (Z.to_nat s2 * Z.to_nat num_nodes)),
         (expected_statistics num_nodes p (s1 + s2)
            (expected_trace num_nodes p (s1 + s2) g)).
  split; [apply simulate_spec; lia|].
  split; [apply simulate_spec; lia|].
  split.
  - rewrite simulate_spec by lia.
    rewrite <- expected_trace_add by lia.
    unfold g1. rewrite advance_advance. do 2 f_equal. lia.
  - rewrite (expected_trace_add num_nodes p s1 s2 g) by lia. fold g1. simpl.
    rewrite !count_status_app, !count_status_shift. repeat split.
Qed.

Lemma runs_compose_witness :
  exists tr1 st1 g1 tr2 st2 g2 st,
    simulate_slotted_aloha 3 (1 # 2) 1 alternating = (Returns (tr1, st1), g1)
    /\ simulate_slotted_aloha 3 (1 # 2) 2 g1 = (Returns (tr2, st2), g2)
    /\ simulate_slotted_aloha 3 (1 # 2) (1 + 2) alternating
       = (Returns (tr1 ++ map (shift_slot 1) tr2, st), g2)
    /\ Stats.successful st = Stats.successful st1 + Stats.successful st2
    /\ Stats.collisions st = Stats.collisions st1 + Stats.collisions st2
    /\ Stats.idle st = Stats.idle st1 + Stats.idle st2.
Proof.
  apply (runs_compose 3 (1 # 2) 1 2 alternating); lia.
Defined.

Lemma np_sum_less_mono a p p' :
  (p <= p')%Q -> np_sum (np_less a p) <= np_sum (np_less a p').
Proof.
  intros Hp. induction a as [|x a IH]; simpl; [lia|].
  destruct (Qlt_le_dec x p) as [L|L], (Qlt_le_dec x p') as [L'|L']; try lia.
  exfalso. apply (Qlt_irrefl x).
  eauto using Qlt_le_trans, Qle_trans.
Qed.

Lemma transmissions_at_mono num_nodes p p' g i :
  (p <= p')%Q ->
  transmissions_at num_nodes p g i <= transmissions_at num_nodes p' g i.
Proof. intros Hp. unfold transmissions_at. now apply np_sum_less_mono. Qed.

Lemma count_idle_mono num_nodes p p' g js :
  0 <= num_nodes -> (p <= p')%Q ->
  count_status "Idle" (map (outcome_at num_nodes p' g) js)
  <= count_status "Idle" (map (outcome_at num_nodes p g) js).
Proof.
  intros Hn Hp. induction js as [|j js IH]; [reflexivity|].
  simpl map. rewrite !count_status_cons.
  unfold outcome_at at 1 3. unfold status_of. simpl snd.
  pose proof (transmissions_at_mono num_nodes p p' g j Hp) as M.
  pose proof (transmissions_at_bounds num_nodes p g j Hn) as B.
  unfold status_rule.
  destruct (Z.eqb_spec (transmissions_at num_nodes p' g j) 0) as [E'|E'],
           (Z.eqb_spec (transmissions_at num_nodes p g j) 0) as [E|E];
    try (exfalso; lia);
    destruct (transmissions_at num_nodes p' g j =? 1);
    destruct (transmissions_at num_nodes p g j =? 1);
    cbn -[Z.add count_status]; lia.
Qed.

(** X7. From the same state of the generator, a larger probability never
    lowers the number of transmitters of a slot: slot by slot the counts of
    the run with [p'] are at least those of the run with [p <= p'], and the
    run with [p'] has at most as many idle slots. *)
Theorem transmissions_grow_with_probability
  num_nodes p p' num_slots g tr st g1 tr' st' g2 :
  (p <= p')%Q ->
  simulate_slotted_aloha num_nodes p num_slots g = (Returns (tr, st), g1) ->
  simulate_slotted_aloha num_nodes p' num_slots g = (Returns (tr', st'), g2) ->
  length tr = length tr'
  /\ (forall i, (i < length tr)%nat ->
        transmissions_of (nth i tr (0, 0, EmptyString))
        <= transmissions_of (nth i tr' (0, 0, EmptyString)))
  /\ Stats.idle st' <= Stats.idle st.
Proof.
  intros Hp H H'.
  apply simulate_returns_inv in H. destruct H as [-> [-> [Hs Hn]]].
  apply simulate_returns_inv in H'. destruct H' as [-> [-> _]].
  split; [now rewrite !expected_trace_length|].
  destruct (Z_lt_le_dec num_slots 0) as [Hneg|Hpos].
  - rewrite !expected_trace_no_slot by lia. split; [simpl; lia | reflexivity].
  - assert (0 <= num_nodes) as Hn' by lia. split.
    + intros i Hi. rewrite expected_trace_length in Hi.
      unfold expected_trace.
      rewrite !(nth_map_in_range _ _ 0%nat) by (now rewrite length_seq).
      rewrite seq_nth by exact Hi.
      unfold outcome_at, transmissions_of. simpl.
      now apply transmissions_at_mono.
    + simpl. now apply count_idle_mono.
Qed.

Lemma transmissions_grow_with_probability_witness :
  length (expected_trace 3 (1 # 2) 4 alternating)
  = length (expected_trace 3 (4 # 5) 4 alternating)
  /\ (forall i, (i < length (expected_trace 3 (1 # 2) 4 alternating))%nat ->
        transmissions_of
          (nth i (expected_trace 3 (1 # 2) 4 alternating) (0, 0, EmptyString))
        <= transmissions_of
             (nth i (expected_trace 3 (4 # 5) 4 alternating)
                (0, 0, EmptyString)))
  /\ count_status "Idle" (expected_trace 3 (4 # 5) 4 alternating)
     <= count_status "Idle" (expected_trace 3 (1 # 2) 4 alternating).
Proof.
  apply (transmissions_grow_with_probability
           3 (1 # 2) (4 # 5) 4 alternating
           (expected_trace 3 (1 # 2) 4 alternating)
           (expected_statistics 3 (1 # 2) 4
              (expected_trace 3 (1 # 2) 4 alternating))
           (advance alternating 12)
           (expected_trace 3 (4 # 5) 4 alternating)
           (expected_statistics 3 (4 # 5) 4
              (expected_trace 3 (4 # 5) 4 alternating))
           (advance alternating 12)).
  - discriminate.
  - reflexivity.
  - reflexivity.
Defined.

(** ** What the page shows *)

Lemma firstn_seq m a len : firstn m (seq a len) = seq a (Nat.min m len).
Proof.
  revert a len. induction m as [|m IH]; intros a len; [reflexivity|].
  destruct len as [|len]; [reflexivity|].
  simpl. now rewrite IH.
Qed.

Lemma slice_expected_trace num_nodes p num_slots g :
  slice_to (expected_trace num_nodes p num_slots g) (display_slots num_slots)
  = map (outcome_at num_nodes p g)
        (seq 0 (Z.to_nat (display_slots num_slots))).
Proof.
  unfold slice_to, display_slots.
  destruct (Z.leb_spec 0 (Z.min 100 num_slots)) as [H|H].
  - unfold expected_trace. rewrite firstn_map, firstn_seq. do 2 f_equal. lia.
  - rewrite expected_trace_no_slot by lia.
    replace (Z.to_nat (Z.min 100 num_slots)) with 0%nat by lia.
    now rewrite firstn_nil.
Qed.

Lemma bar_colors_of_counts ks :
  bar_colors (map status_rule ks) = Some (map color_of_count ks).
Proof.
  induction ks as [|k ks IH]; [reflexivity|].
  simpl map. simpl bar_colors. rewrite IH.
  unfold status_rule, color_of_count.
  destruct (k =? 0); [reflexivity|]. destruct (k =? 1); reflexivity.
Qed.

(** X8. The timeline of a run shows the first min(100, num_slots) slots:
    their numbers are 0, 1, ... in order, their bar heights lie between 0
    and [num_nodes], and looking the statuses up in [colors_map] never
    misses a key; a bar is grey for no transmitter, green for one and red
    for two or more. *)
Theorem timeline_of_run num_nodes p num_slots g tr st g' :
  simulate_slotted_aloha num_nodes p num_slots g = (Returns (tr, st), g') ->
  slot_numbers tr num_slots = range (display_slots num_slots)
  /\ length (shown_transmissions tr num_slots)
     = Z.to_nat (Z.min 100 num_slots)
  /\ Forall (fun k => 0 <= k <= num_nodes) (shown_transmissions tr num_slots)
  /\ bar_colors (statuses tr num_slots)
     = Some (map color_of_count (shown_transmissions tr num_slots)).
Proof.
  intros H. apply simulate_returns_inv in H. destruct H as [-> [_ [Hs Hn]]].
  unfold slot_numbers, shown_transmissions, statuses.
  rewrite slice_expected_trace.
  split; [unfold range; rewrite map_map; now apply map_ext|].
  split; [now rewrite !length_map, length_seq|].
  split.
  - apply Forall_forall. intros k Hk.
    apply in_map_iff in Hk. destruct Hk as [e [<- He]].
    apply in_map_iff in He. destruct He as [i [<- Hi]].
    apply in_seq in Hi. unfold display_slots in Hi.
    apply transmissions_at_bounds. lia.
  - rewrite !map_map.
    rewrite <- (map_map (transmissions_at num_nodes p g) color_of_count).
    rewrite <- bar_colors_of_counts. now rewrite map_map.
Qed.

Lemma timeline_of_run_witness :
  slot_numbers (expected_trace 3 (1 # 2) 4 alternating) 4 = [0; 1; 2; 3]
  /\ bar_colors (statuses (expected_trace 3 (1 # 2) 4 alternating) 4)
     = Some ["#e74c3c"%string; "#2ecc71"%string;
             "#e74c3c"%string; "#2ecc71"%string].
Proof.
  destruct (timeline_of_run 3 (1 # 2) 4 alternating _ _ _ alternating_run)
    as [N [_ [_ C]]].
  split; [exact N | exact C].
Defined.

(** X9. Whatever the sliders are set to, the run of the page returns: no
    division by zero and no refused size can occur.  The trace then has
    [num_slots] entries, the timeline shows exactly 100 of them, and the
    offered load lies between 0.02 and 50. *)
Theorem run_within_sliders num_nodes p num_slots g :
  num_nodes_slider num_nodes -> transmission_prob_slider p ->
  num_slots_slider num_slots ->
  exists tr st g',
    simulate_slotted_aloha num_nodes p num_slots g = (Returns (tr, st), g')
    /\ Z.of_nat (length tr) = num_slots
    /\ display_slots num_slots = 100
    /\ length (slot_numbers tr num_slots) = 100%nat
    /\ (2 / 100 <= Stats.offered_load st <= 50)%R.
Proof.
  intros [Hn1 Hn2] [Hp1 Hp2] [[Hs1 Hs2] _].
  exists (expected_trace num_nodes p num_slots g),
         (expected_statistics num_nodes p num_slots
            (expected_trace num_nodes p num_slots g)),
         (advance g (Z.to_nat num_slots * Z.to_nat num_nodes)).
  split; [apply simulate_spec; lia|].
  split; [rewrite expected_trace_length; lia|].
  split; [unfold display_slots; lia|].
  split.
  - unfold slot_numbers. rewrite slice_expected_trace.
    rewrite !length_map, length_seq. unfold display_slots. lia.
  - simpl. apply Qle_Rle in Hp1, Hp2.
    replace (Q2R (1 # 100)) with (1 / 100)%R in Hp1
      by (unfold Q2R; simpl; lra).
    replace (Q2R 1) with 1%R in Hp2 by (unfold Q2R; simpl; lra).
    apply IZR_le in Hn1, Hn2. nra.
Qed.

Lemma run_within_sliders_witness :
  exists tr st g',
    simulate_slotted_aloha 10 (3 # 10) 1000 alternating
    = (Returns (tr, st), g')
    /\ Z.of_nat (length tr) = 1000
    /\ display_slots 1000 = 100
    /\ length (slot_numbers tr 1000) = 100%nat
    /\ (2 / 100 <= Stats.offered_load st <= 50)%R.
Proof.
  apply (run_within_sliders 10 (3 # 10) 1000 alternating).
  - unfold num_nodes_slider. lia.
  - unfold transmission_prob_slider. split; discriminate.
  - unfold num_slots_slider. split; [lia | reflexivity].
Defined.

(** ** The shape of the curve and the plot *)

Lemma S_of_G_nonneg G : (0 <= G)%R -> (0 <= S_of_G G)%R.
Proof.
  intros H. unfold S_of_G. apply Rmult_le_pos; [exact H | left; apply exp_pos].
Qed.






Lemma G_range_In G :
  In G G_range -> exists i, (i < 100)%nat /\ G = (INR i * (5 / 99))%R.
Proof.
  unfold G_range, np_linspace. intros H.
  apply in_map_iff in H. destruct H as [i [<- Hi]]. apply in_seq in Hi.
  exists i. split; [lia|].
  replace (INR 99) with 99%R by (rewrite INR_IZR_INZ; reflexivity).
  field.
Qed.

Lemma G_range_nth i :
  (i < 100)%nat -> nth i G_range 0%R = (INR i * (5 / 99))%R.
Proof.
  intros Hi. unfold G_range, np_linspace.
  rewrite (nth_map_in_range _ _ 0%nat) by (now rewrite length_seq).
  rewrite seq_nth by exact Hi.
  replace (INR 99) with 99%R by (rewrite INR_IZR_INZ; reflexivity).
  simpl Nat.add. field.
Qed.

Lemma inv_e_below_ylim : (/ exp 1 < 4 / 10)%R.
Proof.
  rewrite <- exp_minus_1. pose proof exp_minus_1_approx as [_ Hi]. lra.
Qed.

(** X11. The plot of the page: the curve is drawn at 100 loads from 0 to 5
    that stay inside the horizontal limits; the load 1 is not one of them,
    so every drawn value is below the marked maximum 1/e, and the marked
    maximum and all the drawn values stay inside the vertical limits. *)
Theorem plotted_curve_fits_the_axes :
  exists S_values,
    S_theoretical = Returns S_values
    /\ length G_range = 100%nat
    /\ length S_values = 100%nat
    /\ nth 0 G_range 0%R = 0%R
    /\ nth 99 G_range 0%R = 5%R
    /\ Forall (fun G => fst xlim <= G <= snd xlim)%R G_range
    /\ ~ In max_G G_range
    /\ Forall (fun S => fst ylim <= S < max_S)%R S_values
    /\ (fst ylim < max_S < snd ylim)%R.
Proof.
  exists (map S_of_G G_range).
  split; [apply get_theoretical_throughput_spec|].
  assert (forall G, In G G_range -> (0 <= G <= 5)%R /\ G <> 1%R) as B.
  { intros G HG. apply G_range_In in HG. destruct HG as [i [Hi ->]].
    assert (0 <= INR i <= 99)%R as [Lo Hi'].
    { split; [apply pos_INR|].
      replace 99%R with (INR 99) by (rewrite INR_IZR_INZ; reflexivity).
      apply le_INR. lia. }
    split; [lra|].
    intros E. assert (INR i * 5 = 99)%R as E' by lra.
    rewrite INR_IZR_INZ, <- mult_IZR in E'. apply eq_IZR in E'. lia. }
  assert (max_S = / exp 1)%R as M by (unfold max_S, np_e; field;
                                      apply Rgt_not_eq, exp_pos).
  split; [reflexivity|].
  split; [rewrite length_map; reflexivity|].
  split; [rewrite (G_range_nth 0) by lia; simpl; lra|].
  split; [rewrite (G_range_nth 99) by lia;
          replace (INR 99) with 99%R by (rewrite INR_IZR_INZ; reflexivity);
          field|].
  split; [apply Forall_forall; intros G HG; simpl; now apply B|].
  split; [unfold max_G; intros H1; now apply B in H1|].
  split.
  - apply Forall_forall. intros S HS.
    apply in_map_iff in HS. destruct HS as [G [<- HG]].
    apply B in HG. destruct HG as [[Lo _] Ne]. rewrite M. simpl.
    split; [now apply S_of_G_nonneg | now apply S_of_G_lt_max].
  - rewrite M. simpl. split; [apply Rinv_0_lt_compat, exp_pos|].
    apply inv_e_below_ylim.
Qed.

(** ** The size of the export *)

Lemma count_char_app c s1 s2 :
  count_char c (s1 ++ s2)%string = (count_char c s1 + count_char c s2)%nat.
Proof.
  induction s1 as [|a s1 IH]; simpl; [reflexivity|]. rewrite IH. lia.
Qed.

Lemma count_char_free c s : free_of c s -> count_char c s = 0%nat.
Proof.
  induction s as [|a s IH]; simpl; [reflexivity|].
  intros [Ha Hs]. destruct (Ascii.eqb_spec a c); [contradiction|].
  now rewrite (IH Hs).
Qed.

Lemma count_char_same c s : count_char c (String c s) = S (count_char c s).
Proof. simpl. now rewrite Ascii.eqb_refl. Qed.

Lemma count_char_csv_row e :
  is_status (status_of e) ->
  count_char line_feed (csv_row e) = 0%nat
  /\ count_char comma (csv_row e) = 2%nat.
Proof.
  intros Hs. split.
  - apply count_char_free. now apply csv_row_one_line.
  - unfold csv_row.
    rewrite count_char_app, count_char_same, count_char_app, count_char_same.
    rewrite (count_char_free comma (status_of e))
      by (apply status_free_of; [now left | exact Hs]).
    rewrite !(count_char_free comma (str _)) by (apply str_free_of; now left).
    reflexivity.
Qed.

Lemma count_char_write_lines ls :
  Forall (fun l => count_char line_feed l = 0%nat
                   /\ count_char comma l = 2%nat) ls ->
  count_char line_feed (write_lines ls) = length ls
  /\ count_char comma (write_lines ls) = (2 * length ls)%nat.
Proof.
  induction 1 as [|l ls [Hl Hc] _ [IH1 IH2]]; [split; reflexivity|].
  rewrite write_lines_cons, !count_char_app, count_char_same.
  change (count_char comma (String line_feed (write_lines ls)))
    with (count_char comma (write_lines ls)).
  rewrite Hl, Hc, IH1, IH2. simpl length. split; lia.
Qed.

(** X12. The export of the trace of a run is the header line followed by
    one line per slot; every one of these lines, the header included,
    holds exactly two commas and no line feed, so that the text has one
    line feed per slot and one for the header: a run of [num_slots] slots
    gives a text of [num_slots] + 1 lines of three fields. *)
Theorem export_size_of_run num_nodes p num_slots g tr st g' :
  simulate_slotted_aloha num_nodes p num_slots g = (Returns (tr, st), g') ->
  export_csv tr
  = write_lines ("Slot,Transmissions,Status"%string :: map csv_row tr)
  /\ Forall (fun l => count_char comma l = 2%nat
                      /\ count_char line_feed l = 0%nat)
            ("Slot,Transmissions,Status"%string :: map csv_row tr)
  /\ length ("Slot,Transmissions,Status"%string :: map csv_row tr)
     = S (length tr)
  /\ count_char line_feed (export_csv tr) = S (length tr)
  /\ count_char comma (export_csv tr) = (2 * S (length tr))%nat
  /\ Z.of_nat (length tr) = Z.max num_slots 0.
Proof.
  intros H. apply simulate_returns_inv in H. destruct H as [-> _].
  assert (Forall (fun l => count_char line_feed l = 0%nat
                           /\ count_char comma l = 2%nat)
                 ("Slot,Transmissions,Status"%string
                  :: map csv_row (expected_trace num_nodes p num_slots g)))
    as F.
  { constructor; [split; reflexivity|].
    apply Forall_forall. intros l Hl.
    apply in_map_iff in Hl. destruct Hl as [e [<- He]].
    apply count_char_csv_row.
    pose proof (expected_trace_statuses num_nodes p num_slots g) as S.
    rewrite Forall_forall in S. now apply S. }
  split; [apply export_csv_lines|].
  split; [eapply Forall_impl; [|exact F]; intros l [A B]; split; assumption|].
  split; [simpl; now rewrite length_map|].
  rewrite export_csv_lines.
  apply count_char_write_lines in F. destruct F as [F1 F2].
  simpl length in F1, F2. rewrite length_map in F1, F2.
  split; [exact F1|]. split; [exact F2|].
  rewrite expected_trace_length. lia.
Qed.

Lemma export_size_of_run_witness :
  Forall (fun l => count_char comma l = 2%nat
                   /\ count_char line_feed l = 0%nat)
         ["Slot,Transmissions,Status"%string; "0,2,Collision"%string;
          "1,1,Success"%string; "2,2,Collision"%string; "3,1,Success"%string]
  /\ count_char line_feed (export_csv (expected_trace 3 (1 # 2) 4 alternating))
     = 5%nat
  /\ count_char comma (export_csv (expected_trace 3 (1 # 2) 4 alternating))
     = 10%nat.
Proof.
  destruct (export_size_of_run 3 (1 # 2) 4 alternating _ _ _ alternating_run)
    as [_ [P [_ [L [C _]]]]].
  split; [exact P|]. split; [exact L | exact C].
Defined.

(** ** Slots one by one, and arguments at the edge *)

(** X13. A slot depends on its own samples only: when two runs with the
    same arguments return and their generators hand out the same
    [num_nodes] samples for slot [i], the two traces have the same entry
    at [i], whatever the samples of the other slots are. *)
Theorem slot_depends_on_its_own_samples
  num_nodes p num_slots g1 g2 tr1 st1 g1' tr2 st2 g2' i :
  simulate_slotted_aloha num_nodes p num_slots g1 = (Returns (tr1, st1), g1') ->
  simulate_slotted_aloha num_nodes p num_slots g2 = (Returns (tr2, st2), g2') ->
  (i < Z.to_nat num_slots)%nat ->
  (forall j, (j < Z.to_nat num_nodes)%nat ->
     (draws g1 (pos g1 + i * Z.to_nat num_nodes + j)%nat
      == draws g2 (pos g2 + i * Z.to_nat num_nodes + j)%nat)%Q) ->
  nth i tr1 (0, 0, EmptyString) = nth i tr2 (0, 0, EmptyString).
Proof.
  intros H1 H2 Hi Hd.
  apply simulate_returns_inv in H1. destruct H1 as [-> _].
  apply simulate_returns_inv in H2. destruct H2 as [-> _].
  unfold expected_trace.
  rewrite !(nth_map_in_range _ _ 0%nat) by (now rewrite length_seq).
  rewrite seq_nth by exact Hi. simpl.
  assert (transmissions_at num_nodes p g1 i = transmissions_at num_nodes p g2 i)
    as E.
  { unfold transmissions_at, samples_at. f_equal.
    apply np_less_same_draws. intros j Hj. apply in_seq in Hj.
    apply Hd. lia. }
  unfold outcome_at. now rewrite E.
Qed.

Lemma slot_depends_on_its_own_samples_witness :
  nth 1 (expected_trace 3 (1 # 2) 2 alternating) (0, 0, EmptyString)
  = nth 1 (expected_trace 3 (1 # 2) 2 alternating_shifted) (0, 0, EmptyString).
Proof.
  apply (slot_depends_on_its_own_samples
           3 (1 # 2) 2 alternating alternating_shifted
           (expected_trace 3 (1 # 2) 2 alternating)
           (expected_statistics 3 (1 # 2) 2
              (expected_trace 3 (1 # 2) 2 alternating))
           (advance alternating 6)
           (expected_trace 3 (1 # 2) 2 alternating_shifted)
           (expected_statistics 3 (1 # 2) 2
              (expected_trace 3 (1 # 2) 2 alternating_shifted))
           (advance alternating_shifted 6) 1).
  - reflexivity.
  - reflexivity.
  - simpl. lia.
  - intros j Hj. simpl in Hj.
    do 3 (destruct j as [|j]; [reflexivity|]). lia.
Defined.

(** X14. A probability outside [0, 1] is used as it is and acts like the
    nearest bound, the samples lying in [0, 1): with [p <= 0] the trace is
    the one of the probability 0, with [p >= 1] the one of the probability
    1, while the offered load is still [num_nodes * p]. *)
Theorem probability_out_of_range_saturates num_nodes p num_slots g :
  unit_interval g -> 0 <= num_nodes -> 1 <= num_slots ->
  exists tr st g',
    simulate_slotted_aloha num_nodes p num_slots g = (Returns (tr, st), g')
    /\ Stats.offered_load st = (IZR num_nodes * Q2R p)%R
    /\ ((p <= 0)%Q ->
        returned_trace (simulate_slotted_aloha num_nodes 0 num_slots g)
        = Some tr)
    /\ ((1 <= p)%Q ->
        returned_trace (simulate_slotted_aloha num_nodes 1 num_slots g)
        = Some tr).
Proof.
  intros U Hn Hs.
  exists (expected_trace num_nodes p num_slots g),
         (expected_statistics num_nodes p num_slots
            (expected_trace num_nodes p num_slots g)),
         (advance g (Z.to_nat num_slots * Z.to_nat num_nodes)).
  split; [apply simulate_spec; lia|].
  split; [reflexivity|].
  split; intros Hp; unfold returned_trace; rewrite simulate_spec by lia;
    simpl; f_equal; unfold expected_trace; apply map_ext; intros i;
    unfold outcome_at.
  - rewrite !transmissions_at_none by (assumption || apply Qle_refl).
    reflexivity.
  - rewrite !transmissions_at_all by (assumption || apply Qle_refl).
    reflexivity.
Qed.

Lemma probability_out_of_range_saturates_witness :
  exists tr st g',
    simulate_slotted_aloha 2 (3 # 2) 2 alternating = (Returns (tr, st), g')
    /\ Stats.offered_load st = (IZR 2 * Q2R (3 # 2))%R
    /\ returned_trace (simulate_slotted_aloha 2 1 2 alternating) = Some tr.
Proof.
  destruct (probability_out_of_range_saturates 2 (3 # 2) 2 alternating
              alternating_unit_interval ltac:(lia) ltac:(lia))
    as [tr [st [g' [E [L [_ H1]]]]]].
  exists tr, st, g'. split; [exact E|]. split; [exact L|].
  apply H1. discriminate.
Defined.

(** X15. With no node at all the call takes no sample: every slot is Idle
    with no transmitter, nothing succeeds or collides, the throughput and
    the offered load are 0 and the generator is left as it was. *)
Theorem no_node_no_transmission p num_slots g :
  1 <= num_slots ->
  exists tr st,
    simulate_slotted_aloha 0 p num_slots g = (Returns (tr, st), g)
    /\ Z.of_nat (length tr) = num_slots
    /\ Forall (fun e => transmissions_of e = 0
                        /\ status_of e = "Idle"%string) tr
    /\ Stats.successful st = 0
    /\ Stats.collisions st = 0
    /\ Stats.idle st = num_slots
    /\ Stats.throughput st = 0%R
    /\ Stats.offered_load st = 0%R.
Proof.
  intros Hs.
  exists (expected_trace 0 p num_slots g),
         (expected_statistics 0 p num_slots (expected_trace 0 p num_slots g)).
  assert (Forall (fun e => transmissions_of e = 0
                           /\ status_of e = "Idle"%string)
                 (expected_trace 0 p num_slots g)) as F.
  { apply Forall_forall. intros e He.
    apply expected_trace_In in He. destruct He as [i [_ ->]].
    pose proof (transmissions_at_bounds 0 p g i (Z.le_refl 0)) as B.
    unfold outcome_at, transmissions_of, status_of. simpl.
    replace (transmissions_at 0 p g i) with 0 by lia. split; reflexivity. }
  assert (count_status "Success" (expected_trace 0 p num_slots g) = 0) as S0.
  { apply count_status_absent. eapply Forall_impl; [|exact F].
    intros e [_ ->]. discriminate. }
  assert (count_status "Collision" (expected_trace 0 p num_slots g) = 0) as C0.
  { apply count_status_absent. eapply Forall_impl; [|exact F].
    intros e [_ ->]. discriminate. }
  pose proof (count_status_partition _ (expected_trace_statuses 0 p num_slots g))
    as P.
  rewrite S0, C0, expected_trace_length in P.
  split.
  - rewrite simulate_spec by lia. f_equal.
    change (Z.to_nat 0) with 0%nat. rewrite Nat.mul_0_r. apply advance_0.
  - split; [rewrite expected_trace_length; lia|].
    split; [exact F|]. simpl. rewrite S0, C0.
    split; [reflexivity|]. split; [reflexivity|]. split; [lia|].
    split; unfold Rdiv; ring.
Qed.

Lemma no_node_no_transmission_witness :
  exists tr st,
    simulate_slotted_aloha 0 (1 # 2) 3 alternating
    = (Returns (tr, st), alternating)
    /\ Z.of_nat (length tr) = 3
    /\ Stats.idle st = 3
    /\ Stats.throughput st = 0%R.
Proof.
  destruct (no_node_no_transmission (1 # 2) 3 alternating ltac:(lia))
    as [tr [st [E [L [_ [_ [_ [I [T _]]]]]]]]].
  exists tr, st. repeat split; assumption.
Defined.
